(** * PointNet notebook (Copy_of_pointnet.ipynb): a shallow embedding

    The notebook is a linear script over TensorFlow/Keras, trimesh, numpy
    and matplotlib.  The code authored in it is embedded here:
    [parse_dataset], [augment], [conv_bn], [dense_bn],
    [OrthogonalRegularizer], [tnet] and the top-level cells.  Library calls
    are primitives of a small monad that records every call and lets the
    environment (a [World]) decide each library answer.

    Floating-point tensors are idealised as exact rationals ([Qc]). *)

From Stdlib Require Import QArith Qcanon Qcabs ZArith Lia List Sorted Permutation Ascii String.
From stdpp Require Import gmap strings list.


(** ** Part I. Tensor arithmetic used by the authored code *)

(** A tensor is handled through its row-major buffer; [tf.reshape] only
    re-reads that buffer under another shape.  The entries are those of a
    [float32] tensor. *)
Abbreviation buffer := (list Qc).

Definition Qcsum (l : list Qc) : Qc := foldr Qcplus 0%Qc l.

Definition dot (u v : list Qc) : Qc := Qcsum (zip_with Qcmult u v).

(** The [n] by [n] identity, row-major: the buffer of [tf.eye(n)] and of
    [np.eye(n).flatten()]. *)
Definition eye_at (i j : nat) : Qc := if Nat.eqb i j then 1%Qc else 0%Qc.

Definition eye_buffer (n : nat) : buffer :=
  flat_map (fun i => map (fun j => eye_at i j) (seq 0 n)) (seq 0 n).

Definition tf_eye (n : nat) : buffer := eye_buffer n.

Definition np_eye_flatten (n : nat) : buffer := eye_buffer n.

(** Row [r] of a buffer read as a matrix with [n] columns. *)
Definition row_of (n : nat) (x : buffer) (r : nat) : list Qc :=
  take n (drop (r * n) x).

(** [tf.reshape(x, (-1, n, n))]: the leading dimension is inferred; the call
    raises when the size of [x] is not a multiple of [n * n].  With [n = 0]
    the requested shape holds no entry: an empty tensor is reshaped, any
    other raises.  (The leading dimension TensorFlow infers for an empty
    tensor and [n = 0] depends on the shape the tensor had, which the buffer
    does not record; every tensor computed from it is empty whatever that
    dimension is, and 0 stands for it here.) *)
Definition reshape_infer (x : buffer) (n : nat) : option nat :=
  if Nat.eqb n 0 then
    if Nat.eqb (length x) 0 then Some 0 else None
  else if Nat.eqb (length x mod (n * n)) 0 then Some (length x / (n * n))
  else None.

(** [tf.tensordot(x, x, axes=(2, 2))] on [x] of shape [(k, n, n)]: the result
    has shape [(k, n, k, n)], entry [(a, i, b, j)] being the dot product of row
    [(a, i)] and row [(b, j)]; row-major, this is the Gram matrix of the
    [k * n] rows of [x]. *)
Definition tensordot22 (k n : nat) (x : buffer) : buffer :=
  flat_map (fun r => map (fun s => dot (row_of n x r) (row_of n x s))
                         (seq 0 (k * n)))
           (seq 0 (k * n)).

(** [t - e] with [e] broadcast over the leading dimension of [t]. *)
Definition broadcast_sub (t e : buffer) : buffer :=
  imap (fun f v => (v - nth (f mod length e) e 0)%Qc) t.

Definition tf_square (t : buffer) : buffer := map (fun v => (v * v)%Qc) t.

Definition scale (c : Qc) (t : buffer) : buffer := map (fun v => (c * v)%Qc) t.

Definition tf_reduce_sum (t : buffer) : Qc := Qcsum t.

(** *** class OrthogonalRegularizer *)

Record OrthogonalRegularizer := mkOrthogonalRegularizer {
  num_features : nat;
  l2reg : Qc;
  eye : buffer
}.

Definition default_l2reg : Qc := Q2Qc (1 # 1000).

(** [__init__(self, num_features, l2reg=0.001)] *)
Definition OrthogonalRegularizer_init (n : nat) (l2 : Qc) : OrthogonalRegularizer :=
  {| num_features := n; l2reg := l2; eye := tf_eye n |}.

(** [__call__(self, x)] on a [float32] tensor, the element type of
    [self.eye] and of the layer output the regularizer is attached to;
    [None] stands for the exception of [tf.reshape]. *)
Definition OrthogonalRegularizer_call (self : OrthogonalRegularizer) (x : buffer)
  : option Qc :=
  match reshape_infer x (num_features self) with
  | None => None
  | Some k =>
    let xxt := tensordot22 k (num_features self) x in
    match reshape_infer xxt (num_features self) with
    | None => None
    | Some _ =>
      Some (tf_reduce_sum (scale (l2reg self) (tf_square (broadcast_sub xxt (eye self)))))
    end
  end.



(** The penalty the notebook's text describes: [l2reg] times the squared
    entrywise deviation of [X * X^T] from the identity, summed over the [k]
    matrices [X] stored in [x]. *)
Definition matrix_at (n : nat) (x : buffer) (a : nat) : list (list Qc) :=
  map (fun i => row_of n x (a * n + i)) (seq 0 n).

Definition mul_transpose (X : list (list Qc)) : list (list Qc) :=
  map (fun ri => map (fun rj => dot ri rj) X) X.

Definition sq_deviation (G : list (list Qc)) : Qc :=
  Qcsum (imap (fun i r => Qcsum (imap (fun j v => ((v - eye_at i j) * (v - eye_at i j))%Qc) r)) G).

Definition orthogonality_penalty (l2 : Qc) (k n : nat) (x : buffer) : Qc :=
  (l2 * Qcsum (map (fun a => sq_deviation (mul_transpose (matrix_at n x a))) (seq 0 k)))%Qc.

(** The identity as a list of rows. *)
Definition identity_rows (n : nat) : list (list Qc) :=
  map (fun i => map (fun j => eye_at i j) (seq 0 n)) (seq 0 n).

(** ** Part II. Strings and paths (posixpath) *)

Definition slash : ascii := "/"%char.

(** [s.split(sep)] for a one-character separator. *)
Fixpoint str_split (sep : ascii) (s : string) : list string :=
  match s with
  | EmptyString => [EmptyString]
  | String c r =>
    if Ascii.eqb c sep then EmptyString :: str_split sep r
    else match str_split sep r with
         | h :: t => String c h :: t
         | [] => [String c EmptyString]
         end
  end.

(** [l[-1]] on a list of strings. *)
Definition getitem_last (l : list string) : string := List.last l EmptyString.

(** [s.rfind(sep)], with Python's [-1] for "not found". *)
Fixpoint rfind_nat (sep : ascii) (s : string) : option nat :=
  match s with
  | EmptyString => None
  | String c r =>
    match rfind_nat sep r with
    | Some i => Some (S i)
    | None => if Ascii.eqb c sep then Some 0 else None
    end
  end.

Definition str_rfind (sep : ascii) (s : string) : Z :=
  match rfind_nat sep s with
  | Some i => Z.of_nat i
  | None => (-1)%Z
  end.

(** [s[i:]] and [s[:i]] for [0 <= i]. *)
Fixpoint str_from (i : nat) (s : string) : string :=
  match i, s with
  | O, _ => s
  | S i', String _ r => str_from i' r
  | S _, EmptyString => EmptyString
  end.

Fixpoint str_upto (i : nat) (s : string) : string :=
  match i, s with
  | O, _ => EmptyString
  | S i', String c r => String c (str_upto i' r)
  | S _, EmptyString => EmptyString
  end.

Fixpoint str_all (c : ascii) (s : string) : bool :=
  match s with
  | EmptyString => true
  | String d r => Ascii.eqb d c && str_all c r
  end.

Fixpoint str_ends_with (c : ascii) (s : string) : bool :=
  match s with
  | EmptyString => false
  | String d EmptyString => Ascii.eqb d c
  | String _ r => str_ends_with c r
  end.

Definition str_starts_with (c : ascii) (s : string) : bool :=
  match s with
  | String d _ => Ascii.eqb d c
  | EmptyString => false
  end.

(** [s.rstrip(c)] *)
Fixpoint str_rstrip (c : ascii) (s : string) : string :=
  match s with
  | EmptyString => EmptyString
  | String d r =>
    match str_rstrip c r with
    | EmptyString => if Ascii.eqb d c then EmptyString else String d EmptyString
    | r' => String d r'
    end
  end.

(** [os.path.basename(p)] *)
Definition os_path_basename (p : string) : string :=
  let i := (str_rfind slash p + 1)%Z in
  str_from (Z.to_nat i) p.

(** [os.path.dirname(p)] *)
Definition os_path_dirname (p : string) : string :=
  let i := (str_rfind slash p + 1)%Z in
  let head := str_upto (Z.to_nat i) p in
  if negb (String.eqb head EmptyString) && negb (str_all slash head)
  then str_rstrip slash head
  else head.

(** [os.path.join(a, b)] *)
Definition os_path_join (a b : string) : string :=
  if str_starts_with slash b then b
  else if String.eqb a EmptyString || str_ends_with slash a then a +:+ b
  else a +:+ String slash b.

(** ** Part III. Values, library calls and the execution monad *)

Abbreviation matrix := (list (list Qc)).

(** Exceptions the libraries and the interpreter raise. *)
Inductive exc :=
| OSError (msg : string)
| ValueError (msg : string)
| AttributeError (msg : string)
| KeyError (key : nat)
| IndexError
| InvalidArgumentError (msg : string).

(** What [trimesh.load] returns: a single mesh, or a scene of several (which
    has no [sample] method). *)
Inductive geometry :=
| Trimesh (src : string)
| Scene (src : string).

(** Keras layers, by constructor arguments. *)
Inductive initializer :=
| glorot_uniform
| zeros
| Constant (value : buffer).

Inductive layer :=
| Conv1D (filters kernel_size : nat) (padding : string)
| BatchNormalization (momentum : Qc)
| Activation (name : string)
| GlobalMaxPooling1D
| Dense (units : nat) (activation : option string)
        (kernel_initializer bias_initializer : initializer)
        (activity_regularizer : option OrthogonalRegularizer)
| Reshape (target_shape : list nat)
| Dropout (rate : Qc).

(** Symbolic Keras tensors: the layer graph built by the functional API.
    Every layer object gets the time of its creation as identity. *)
Inductive node :=
| Input (shape : list nat)
| Apply1 (uid : nat) (l : layer) (x : node)
| Dot (uid : nat) (axes : nat * nat) (x y : node).

(** [tf.data] pipelines, symbolically. *)
Inductive dataset :=
| from_tensor_slices (points : list matrix) (labels : list nat)
| shuffle (buffer_size : nat) (d : dataset)
| map_augment (d : dataset)
| batch (batch_size : nat) (d : dataset)
| take_ds (count : nat) (d : dataset).

(** Library calls, as recorded in the trace. *)
Inductive call :=
| Call_pip_install (pkg : string)
| Call_set_seed (seed : nat)
| Call_get_file (fname origin : string) (extract : bool)
| Call_glob (pattern : string)
| Call_print (text : string)
| Call_trimesh_load (path : string)
| Call_show
| Call_sample (count : nat)
| Call_figure (width height : nat)
| Call_add_subplot (args : list nat)
| Call_scatter
| Call_set_axis_off
| Call_set_title (text : string)
| Call_plt_show
| Call_from_tensor_slices
| Call_shuffle (buffer_size : nat)
| Call_map
| Call_batch (batch_size : nat)
| Call_take (count : nat)
| Call_iterate
| Call_Input (shape : list nat)
| Call_layer (l : layer)
| Call_Dot (axes : nat * nat)
| Call_Model (name : string)
| Call_summary
| Call_Adam (learning_rate : Qc)
| Call_compile (loss metric : string)
| Call_fit (epochs : nat)
| Call_predict
| Call_argmax
| Call_random_uniform (shape : list nat) (minval maxval : Qc)
| Call_add
| Call_random_shuffle
| Call_getitem.

(** A trace entry: a call that returned, or the exception a call raised. *)
Inductive event :=
| Called (c : call)
| Raised (c : call) (e : exc).

(** The environment: for the library call made at time [t], whether it
    raises, and otherwise what it returns where the result is not determined
    by the script (files, random draws, trained weights). *)
Record World := {
  raises : nat -> call -> option exc;
  get_file_result : nat -> string;
  glob_result : nat -> string -> list string;
  load_result : nat -> string -> geometry;
  sample_result : nat -> string -> nat -> matrix;
  uniform_result : nat -> list nat -> Qc -> Qc -> matrix;
  shuffle_result : nat -> matrix -> matrix;
  iterate_result : nat -> dataset -> list (list matrix * list nat);
  predict_result : nat -> node -> list matrix -> list (list Qc)
}.

(** Interpreter state: a clock counting the calls made so far, and the
    heap of dictionaries (Python dicts are shared mutable objects). *)
Record state := mkState {
  clock : nat;
  heap : gmap nat (gmap nat string)
}.

Record result (A : Type) := mkResult {
  emitted : list event;
  outcome : exc + A;
  final : state
}.
Arguments mkResult {A} _ _ _.
Arguments emitted {A} _.
Arguments outcome {A} _.
Arguments final {A} _.

Definition M (A : Type) : Type := state -> result A.

#[global] Instance M_ret : MRet M := fun A a s => mkResult [] (inr a) s.

#[global] Instance M_bind : MBind M := fun A B f m s =>
  let r := m s in
  match outcome r with
  | inl e => mkResult (emitted r) (inl e) (final r)
  | inr a =>
    let r' := f a (final r) in
    mkResult (emitted r ++ emitted r') (outcome r') (final r')
  end.

Definition tick (s : state) : state := mkState (S (clock s)) (heap s).

(** An exception raised by the interpreter itself or by a shape check. *)
Definition throw {A} (c : call) (e : exc) : M A :=
  fun s => mkResult [Raised c e] (inl e) (tick s).

(** [try: m except: h] -- available in the language, never used by the
    notebook. *)
Definition try_except {A} (m : M A) (h : exc -> M A) : M A := fun s =>
  let r := m s in
  match outcome r with
  | inl e =>
    let r' := h e (final r) in
    mkResult (emitted r ++ emitted r') (outcome r') (final r')
  | inr a => r
  end.

(** [for x in l: acc = body(x, acc)] *)
Fixpoint for_each {A B} (l : list A) (body : A -> B -> M B) (acc : B) : M B :=
  match l with
  | [] => mret acc
  | x :: l' => acc' ← body x acc; for_each l' body acc'
  end.

(** Dictionaries. *)
Definition dict_new : M nat := fun s =>
  let loc := fresh (dom (heap s)) in
  mkResult [] (inr loc) (mkState (clock s) (<[loc := ∅]> (heap s))).

Definition dict_setitem (loc key : nat) (v : string) : M unit := fun s =>
  mkResult [] (inr tt)
    (mkState (clock s) (alter (fun d => <[key := v]> d) loc (heap s))).

Definition dict_getitem (loc key : nat) : M string := fun s =>
  match heap s !! loc ≫= (fun d => d !! key) with
  | Some v => mkResult [] (inr v) s
  | None => throw Call_getitem (KeyError key) s
  end.

(** [l[i]] on a sequence. *)
Definition getitem {A} (l : list A) (i : nat) : M A :=
  match l !! i with
  | Some v => mret v
  | None => throw Call_getitem IndexError
  end.

(** ** Part IV. Static shapes of Keras tensors *)

Definition product (l : list nat) : nat := foldr Nat.mul 1 l.

(** Output shape of a layer applied to an input of shape [sh] (batch axis
    left out); [None] when Keras rejects the input.  Shapes are static:
    every axis has a known size, as in the notebook, whose tensors all
    derive from [keras.Input(shape=(NUM_POINTS, 3))]; a tensor with an axis
    of unknown size ([None]) is not a [node].  [Conv1D] works on the last
    two axes (points, channels) and leaves the axes before them as they
    are, as the Keras 2 of the notebook's recorded run does. *)
Definition out_shape (l : layer) (sh : list nat) : option (list nat) :=
  match l with
  | Conv1D f k _ =>
    match drop (length sh - 2) sh with
    | [n; _] =>
      if Nat.leb 1 k && Nat.leb k n
      then Some (take (length sh - 2) sh ++ [n - k + 1; f])
      else None
    | _ => None
    end
  | GlobalMaxPooling1D =>
    match sh with
    | [_; c] => Some [c]
    | _ => None
    end
  | Dense u _ _ _ _ =>
    match sh with
    | [] => None
    | _ :: _ => Some (removelast sh ++ [u])
    end
  | Reshape t => if Nat.eqb (product sh) (product t) then Some t else None
  | BatchNormalization _ | Activation _ | Dropout _ => Some sh
  end.

(** [layers.Dot(axes=(2, 1))] contracts the last axis of the first input with
    the first non-batch axis of the second. *)
Definition dot_shape (axes : nat * nat) (a b : list nat) : option (list nat) :=
  match axes, a, b with
  | (2, 1), [n; c], [c'; m] => if Nat.eqb c c' then Some [n; m] else None
  | _, _, _ => None
  end.

Fixpoint shape_of (nd : node) : option (list nat) :=
  match nd with
  | Input sh => Some sh
  | Apply1 _ l x => shape_of x ≫= out_shape l
  | Dot _ axes x y =>
    match shape_of x, shape_of y with
    | Some a, Some b => dot_shape axes a b
    | _, _ => None
    end
  end.

(** ** Part V. The notebook *)

Definition enumerate {A} (l : list A) : list (nat * A) := imap pair l.

Definition np_array {A} (l : list A) : list A := l.

(** [points.shape] of a two-dimensional array. *)
Definition mat_shape (m : matrix) : list nat :=
  [length m; match m with r :: _ => length r | [] => 0 end].

Definition mat_add (a b : matrix) : matrix := zip_with (zip_with Qcplus) a b.

Definition column (j : nat) (m : matrix) : list Qc := map (fun r => nth j r 0%Qc) m.

(** [tf.math.argmax(preds, -1)]: first index of the largest entry. *)
Fixpoint argmax_from (best_i : nat) (best : Qc) (i : nat) (l : list Qc) : nat :=
  match l with
  | [] => best_i
  | v :: r =>
    if bool_decide (best < v)%Qc then argmax_from i v (S i) r
    else argmax_from best_i best (S i) r
  end.

Definition argmax_row (l : list Qc) : nat :=
  match l with
  | [] => 0
  | v :: r => argmax_from 0 v 1 r
  end.

Definition NUM_POINTS : nat := 2048.
Definition NUM_CLASSES : nat := 10.
Definition BATCH_SIZE : nat := 32.

Definition jitter_min : Qc := Q2Qc (-5 # 1000).
Definition jitter_max : Qc := Q2Qc (5 # 1000).
Definition dropout_rate : Qc := Q2Qc (3 # 10).

(** The four lists [parse_dataset] appends to. *)
Abbreviation lists := (list matrix * list nat * list matrix * list nat)%type.

Section Notebook.
Context (w : World).

(** A library call at the current time: it raises when the world says so,
    and returns [v] otherwise. *)
Definition lib {A} (c : call) (v : nat -> A) : M A := fun s =>
  match raises w (clock s) c with
  | Some e => mkResult [Raised c e] (inl e) (tick s)
  | None => mkResult [Called c] (inr (v (clock s))) (tick s)
  end.

Definition pip_install (pkg : string) : M unit :=
  lib (Call_pip_install pkg) (fun _ => tt).
Definition tf_random_set_seed (seed : nat) : M unit :=
  lib (Call_set_seed seed) (fun _ => tt).
Definition get_file (fname origin : string) (extract : bool) : M string :=
  lib (Call_get_file fname origin extract) (get_file_result w).
Definition glob_glob (pattern : string) : M (list string) :=
  lib (Call_glob pattern) (fun t => glob_result w t pattern).
Definition print (text : string) : M unit :=
  lib (Call_print text) (fun _ => tt).
Definition trimesh_load (path : string) : M geometry :=
  lib (Call_trimesh_load path) (fun t => load_result w t path).
Definition mesh_show (mesh : geometry) : M unit :=
  lib Call_show (fun _ => tt).
Definition mesh_sample (mesh : geometry) (count : nat) : M matrix :=
  match mesh with
  | Trimesh src => lib (Call_sample count) (fun t => sample_result w t src count)
  | Scene _ => throw (Call_sample count) (AttributeError "sample")
  end.

Definition plt_figure (width height : nat) : M unit :=
  lib (Call_figure width height) (fun _ => tt).
Definition add_subplot (args : list nat) : M unit :=
  lib (Call_add_subplot args) (fun _ => tt).
Definition ax_scatter (xs ys zs : list Qc) : M unit :=
  lib Call_scatter (fun _ => tt).
Definition ax_set_axis_off : M unit := lib Call_set_axis_off (fun _ => tt).
Definition ax_set_title (text : string) : M unit :=
  lib (Call_set_title text) (fun _ => tt).
Definition plt_show : M unit := lib Call_plt_show (fun _ => tt).

Definition Dataset_from_tensor_slices (points : list matrix) (labels : list nat)
  : M dataset :=
  lib Call_from_tensor_slices (fun _ => from_tensor_slices points labels).
Definition Dataset_shuffle (d : dataset) (buffer_size : nat) : M dataset :=
  lib (Call_shuffle buffer_size) (fun _ => shuffle buffer_size d).
Definition Dataset_map_augment (d : dataset) : M dataset :=
  lib Call_map (fun _ => map_augment d).
Definition Dataset_batch (d : dataset) (batch_size : nat) : M dataset :=
  lib (Call_batch batch_size) (fun _ => batch batch_size d).
Definition Dataset_take (d : dataset) (count : nat) : M dataset :=
  lib (Call_take count) (fun _ => take_ds count d).
Definition list_dataset (d : dataset) : M (list (list matrix * list nat)) :=
  lib Call_iterate (fun t => iterate_result w t d).

Definition keras_Input (shape : list nat) : M node :=
  lib (Call_Input shape) (fun _ => Input shape).

(** [layer(x)] for a freshly constructed layer: Keras checks the static
    shape and raises [ValueError] on a mismatch. *)
Definition apply_layer (l : layer) (x : node) : M node :=
  match shape_of x ≫= out_shape l with
  | Some _ => lib (Call_layer l) (fun t => Apply1 t l x)
  | None => throw (Call_layer l) (ValueError "incompatible input shape")
  end.

Definition layers_Dot (axes : nat * nat) (x y : node) : M node :=
  match shape_of (Dot 0 axes x y) with
  | Some _ => lib (Call_Dot axes) (fun t => Dot t axes x y)
  | None => throw (Call_Dot axes) (ValueError "incompatible input shape")
  end.

Definition keras_Model (inputs outputs : node) (name : string) : M node :=
  lib (Call_Model name) (fun _ => outputs).
Definition model_summary (model : node) : M unit :=
  lib Call_summary (fun _ => tt).
Definition Adam (learning_rate : Qc) : M Qc :=
  lib (Call_Adam learning_rate) (fun _ => learning_rate).
Definition model_compile (model : node) (loss : string) (optimizer : Qc)
    (metric : string) : M unit :=
  lib (Call_compile loss metric) (fun _ => tt).
Definition model_fit (model : node) (train : dataset) (epochs : nat)
    (validation_data : dataset) : M unit :=
  lib (Call_fit epochs) (fun _ => tt).
Definition model_predict (model : node) (points : list matrix) : M (list (list Qc)) :=
  lib Call_predict (fun t => predict_result w t model points).
Definition tf_math_argmax (preds : list (list Qc)) : M (list nat) :=
  lib Call_argmax (fun _ => map argmax_row preds).

Definition tf_random_uniform (shape : list nat) (minval maxval : Qc) : M matrix :=
  lib (Call_random_uniform shape minval maxval)
      (fun t => uniform_result w t shape minval maxval).
Definition tensor_add (a b : matrix) : M matrix :=
  lib Call_add (fun _ => mat_add a b).
Definition tf_random_shuffle (m : matrix) : M matrix :=
  lib Call_random_shuffle (fun t => shuffle_result w t m).

(** *** parse_dataset

    The function reads the global [DATA_DIR]; here it is an argument.  The
    four Python lists are threaded through the loops, and the dictionary
    lives in the heap. *)

Definition parse_dataset (DATA_DIR : string) (num_points : nat)
  : M (list matrix * list matrix * list nat * list nat * nat) :=
  class_map ← dict_new;
  folders ← glob_glob (os_path_join DATA_DIR "[!README]*");
  acc ← for_each (enumerate folders) (fun '(i, folder) (acc : lists) =>
    print ("processing class: " +:+ os_path_basename folder);;
    dict_setitem class_map i (getitem_last (str_split slash folder));;
    train_files ← glob_glob (os_path_join folder "train/*");
    test_files ← glob_glob (os_path_join folder "test/*");
    acc ← for_each train_files (fun f '(train_points, train_labels, test_points, test_labels) =>
      mesh ← trimesh_load f;
      pts ← mesh_sample mesh num_points;
      mret (train_points ++ [pts], train_labels ++ [i], test_points, test_labels)) acc;
    for_each test_files (fun f '(train_points, train_labels, test_points, test_labels) =>
      mesh ← trimesh_load f;
      pts ← mesh_sample mesh num_points;
      mret (train_points, train_labels, test_points ++ [pts], test_labels ++ [i])) acc)
    ([], [], [], []);
  let '(train_points, train_labels, test_points, test_labels) := acc in
  mret (np_array train_points, np_array test_points,
        np_array train_labels, np_array test_labels, class_map).

(** *** augment *)

Definition augment (points : matrix) (label : nat) : M (matrix * nat) :=
  noise ← tf_random_uniform (mat_shape points) jitter_min jitter_max;
  points ← tensor_add points noise;
  points ← tf_random_shuffle points;
  mret (points, label).

(** *** conv_bn, dense_bn, tnet *)

Definition conv_bn (x : node) (filters : nat) : M node :=
  x ← apply_layer (Conv1D filters 1 "valid") x;
  x ← apply_layer (BatchNormalization 0%Qc) x;
  apply_layer (Activation "relu") x.

Definition dense_bn (x : node) (filters : nat) : M node :=
  x ← apply_layer (Dense filters None glorot_uniform zeros None) x;
  x ← apply_layer (BatchNormalization 0%Qc) x;
  apply_layer (Activation "relu") x.

Definition tnet (inputs : node) (n : nat) : M node :=
  let bias := Constant (np_eye_flatten n) in
  let reg := OrthogonalRegularizer_init n default_l2reg in
  x ← conv_bn inputs 32;
  x ← conv_bn x 64;
  x ← conv_bn x 512;
  x ← apply_layer GlobalMaxPooling1D x;
  x ← dense_bn x 256;
  x ← dense_bn x 128;
  x ← apply_layer (Dense (n * n) None zeros bias (Some reg)) x;
  feat_T ← apply_layer (Reshape [n; n]) x;
  layers_Dot (2, 1) inputs feat_T.

(** *** The cells, top to bottom *)

Definition cell_setup : M unit :=
  pip_install "trimesh";;
  tf_random_set_seed 1234.

Definition cell_fetch : M string :=
  DATA_DIR ← get_file "modelnet.zip"
    "http://3dvision.princeton.edu/projects/2014/3DShapeNets/ModelNet10.zip" true;
  mret (os_path_join (os_path_dirname DATA_DIR) "ModelNet10").

Definition cell_preview (DATA_DIR : string) : M unit :=
  mesh ← trimesh_load (os_path_join DATA_DIR "chair/train/chair_0001.off");
  mesh_show mesh;;
  points ← mesh_sample mesh 2048;
  plt_figure 5 5;;
  add_subplot [111];;
  ax_scatter (column 0 points) (column 1 points) (column 2 points);;
  ax_set_axis_off;;
  plt_show.

Definition cell_datasets (train_points test_points : list matrix)
    (train_labels test_labels : list nat) : M (dataset * dataset) :=
  train_dataset ← Dataset_from_tensor_slices train_points train_labels;
  test_dataset ← Dataset_from_tensor_slices test_points test_labels;
  train_dataset ← Dataset_shuffle train_dataset (length train_points);
  train_dataset ← Dataset_map_augment train_dataset;
  train_dataset ← Dataset_batch train_dataset BATCH_SIZE;
  test_dataset ← Dataset_shuffle test_dataset (length test_points);
  test_dataset ← Dataset_batch test_dataset BATCH_SIZE;
  mret (train_dataset, test_dataset).

Definition cell_model : M node :=
  inputs ← keras_Input [NUM_POINTS; 3];
  x ← tnet inputs 3;
  x ← conv_bn x 32;
  x ← conv_bn x 32;
  x ← tnet x 32;
  x ← conv_bn x 32;
  x ← conv_bn x 64;
  x ← conv_bn x 512;
  x ← apply_layer GlobalMaxPooling1D x;
  x ← dense_bn x 256;
  x ← apply_layer (Dropout dropout_rate) x;
  x ← dense_bn x 128;
  x ← apply_layer (Dropout dropout_rate) x;
  outputs ← apply_layer (Dense NUM_CLASSES (Some "softmax") glorot_uniform zeros None) x;
  model ← keras_Model inputs outputs "pointnet";
  model_summary model;;
  mret model.

Definition cell_train (model : node) (train_dataset test_dataset : dataset) : M unit :=
  optimizer ← Adam (Q2Qc (1 # 1000));
  model_compile model "sparse_categorical_crossentropy" optimizer
                "sparse_categorical_accuracy";;
  model_fit model train_dataset 20 test_dataset.

Definition cell_visualize (CLASS_MAP : nat) (test_dataset : dataset) (model : node)
  : M unit :=
  data ← Dataset_take test_dataset 1;
  batches ← list_dataset data;
  first ← getitem batches 0;
  let points := take 8 (fst first) in
  let labels := take 8 (snd first) in
  preds ← model_predict model points;
  preds ← tf_math_argmax preds;
  plt_figure 15 10;;
  for_each (seq 0 8) (fun i (_ : unit) =>
    add_subplot [2; 4; i + 1];;
    p ← getitem points i;
    ax_scatter (column 0 p) (column 1 p) (column 2 p);;
    pred ← getitem preds i;
    pred_name ← dict_getitem CLASS_MAP pred;
    label ← getitem labels i;
    label_name ← dict_getitem CLASS_MAP label;
    ax_set_title ("pred: " +:+ pred_name +:+ ", label: " +:+ label_name);;
    ax_set_axis_off) tt;;
  plt_show.

(** Everything that runs after the cell calling [parse_dataset]. *)
Definition after_parse (train_points test_points : list matrix)
    (train_labels test_labels : list nat) (CLASS_MAP : nat) : M unit :=
  datasets ← cell_datasets train_points test_points train_labels test_labels;
  model ← cell_model;
  cell_train model (fst datasets) (snd datasets);;
  cell_visualize CLASS_MAP (snd datasets) model.

Definition pipeline (DATA_DIR : string) : M unit :=
  parsed ← parse_dataset DATA_DIR NUM_POINTS;
  let '(train_points, test_points, train_labels, test_labels, CLASS_MAP) := parsed in
  after_parse train_points test_points train_labels test_labels CLASS_MAP.

Definition notebook : M unit :=
  cell_setup;;
  DATA_DIR ← cell_fetch;
  cell_preview DATA_DIR;;
  pipeline DATA_DIR.

End Notebook.

(** ** Part VI. Pipeline stages of a trace *)

Inductive stage :=
| Fetch
| MeshSampling
| TensorDataset
| ModelDefinition
| CompileFit
| Inference
| Plotting.

Definition rank (st : stage) : nat :=
  match st with
  | Fetch => 0
  | MeshSampling => 1
  | TensorDataset => 2
  | ModelDefinition => 3
  | CompileFit => 4
  | Inference => 5
  | Plotting => 6
  end.

(** The stage a library call belongs to; console output, set-up calls and
    interpreter-level indexing belong to none. *)
Definition stage_of_call (c : call) : option stage :=
  match c with
  | Call_get_file _ _ _ => Some Fetch
  | Call_glob _ | Call_trimesh_load _ | Call_sample _ => Some MeshSampling
  | Call_from_tensor_slices | Call_shuffle _ | Call_map | Call_batch _ => Some TensorDataset
  | Call_Input _ | Call_layer _ | Call_Dot _ | Call_Model _ | Call_summary =>
    Some ModelDefinition
  | Call_Adam _ | Call_compile _ _ | Call_fit _ => Some CompileFit
  | Call_take _ | Call_iterate | Call_predict | Call_argmax => Some Inference
  | Call_show | Call_figure _ _ | Call_add_subplot _ | Call_scatter
  | Call_set_axis_off | Call_set_title _ | Call_plt_show => Some Plotting
  | Call_pip_install _ | Call_set_seed _ | Call_print _ | Call_getitem
  | Call_random_uniform _ _ _ | Call_add | Call_random_shuffle => None
  end.

Definition call_of (ev : event) : call :=
  match ev with
  | Called c => c
  | Raised c _ => c
  end.

Definition stages (t : list event) : list stage :=
  omap (fun ev => stage_of_call (call_of ev)) t.

(** Stage ranks never decrease: no stage is entered again after a later one
    has started. *)
Definition in_order (l : list stage) : Prop := Sorted (fun a b => rank a <= rank b) l.

#[global] Instance stage_eq_dec : EqDecision stage.
Proof. solve_decision. Defined.

(** The sequence of stages with consecutive repetitions merged. *)
Definition merge_cons (a : stage) (p : list stage) : list stage :=
  match p with
  | b :: _ => if decide (a = b) then p else a :: p
  | [] => [a]
  end.

Definition phases (l : list stage) : list stage := foldr merge_cons [] l.

Definition all_stages : list stage :=
  [Fetch; MeshSampling; TensorDataset; ModelDefinition; CompileFit; Inference; Plotting].

(** ** Part VII. The forward pass at initialisation *)

(** [layers.Dot(axes=(2, 1))] on one sample: [a] of shape [(n, c)] times [b]
    of shape [(c, m)]. *)
Definition dot21 (n c m : nat) (a b : buffer) : buffer :=
  flat_map (fun p =>
    map (fun j => Qcsum (map (fun q => (nth (p * c + q) a 0 * nth (q * m + j) b 0)%Qc)
                             (seq 0 c)))
        (seq 0 m))
    (seq 0 n).

Definition dim (i : nat) (sh : option (list nat)) : nat :=
  match sh with
  | Some l => nth i l 0
  | None => 0
  end.

Definition last_dim (sh : option (list nat)) : nat :=
  match sh with
  | Some l => List.last l 0
  | None => 0
  end.

Section Forward.
(** The layers whose arithmetic the notebook leaves to Keras (convolution,
    batch normalisation, activations, pooling, dropout), with whatever
    weights they hold: each maps a sample, possibly looking at the whole
    batch.  [glorot] gives the kernel a default-initialised Dense layer
    draws. *)
Context (framework_layer : nat -> layer -> list buffer -> buffer -> buffer).
Context (glorot : nat -> nat -> nat -> list (list Qc)).
Context (framework_activation : string -> buffer -> buffer).

Definition initial_kernel (uid : nat) (i : initializer) (d units : nat)
  : list (list Qc) :=
  match i with
  | zeros => repeat (repeat 0%Qc units) d
  | Constant v => map (fun r => row_of units v r) (seq 0 d)
  | glorot_uniform => glorot uid d units
  end.

Definition initial_bias (uid : nat) (i : initializer) (units : nat) : list Qc :=
  match i with
  | zeros => repeat 0%Qc units
  | Constant v => v
  | glorot_uniform => List.concat (glorot uid 1 units)
  end.

(** [h . K + b] on a vector [h]. *)
Definition dense_row (K : list (list Qc)) (b : list Qc) (units : nat) (h : list Qc)
  : list Qc :=
  map (fun j => (dot h (column j K) + nth j b 0)%Qc) (seq 0 units).

Definition dense_forward (uid units : nat) (act : option string)
    (ki bi : initializer) (in_shape : option (list nat)) (h : buffer) : buffer :=
  let d := last_dim in_shape in
  let rows := match in_shape with Some sh => product (removelast sh) | None => 0 end in
  let K := initial_kernel uid ki d units in
  let b := initial_bias uid bi units in
  let out := flat_map (fun r => dense_row K b units (row_of d h r)) (seq 0 rows) in
  match act with
  | None => out
  | Some name => framework_activation name out
  end.

Fixpoint forward (nd : node) (inputs : list buffer) : list buffer :=
  match nd with
  | Input _ => inputs
  | Apply1 uid l x =>
    let v := forward x inputs in
    match l with
    | Dense units act ki bi _ => map (dense_forward uid units act ki bi (shape_of x)) v
    | Reshape _ => v
    | _ => map (framework_layer uid l v) v
    end
  | Dot uid axes x y =>
    zip_with (dot21 (dim 0 (shape_of x)) (dim 1 (shape_of x)) (dim 1 (shape_of y)))
             (forward x inputs) (forward y inputs)
  end.

(** What the activity regularizer of a Dense layer is called on: the
    layer's output for the batch, one buffer. *)
Definition activity (nd : node) (inputs : list buffer) : buffer :=
  List.concat (forward nd inputs).

End Forward.

(** ** Part VIII. Sample environments *)

Definition qz (z : Z) : Qc := Q2Qc (inject_Z z).

Definition two_identities : buffer :=
  map qz [1;0;0; 0;1;0; 0;0;1;  1;0;0; 0;1;0; 0;0;1]%Z.

Definition one_identity : buffer := map qz [1;0;0; 0;1;0; 0;0;1]%Z.

Definition s0 : state := mkState 0 ∅.

Definition unit_cloud (count : nat) : matrix := repeat [qz 0; qz 0; qz 0] count.

(** An environment in which no call raises: two class folders with one
    training and one test mesh each. *)
Definition sunny_glob (pattern : string) : list string :=
  if String.eqb pattern "/root/.keras/datasets/ModelNet10/[!README]*"
  then ["/root/.keras/datasets/ModelNet10/chair"; "/root/.keras/datasets/ModelNet10/sofa"]
  else if String.eqb pattern "/root/.keras/datasets/ModelNet10/chair/train/*"
  then ["/root/.keras/datasets/ModelNet10/chair/train/chair_0001.off"]
  else if String.eqb pattern "/root/.keras/datasets/ModelNet10/chair/test/*"
  then ["/root/.keras/datasets/ModelNet10/chair/test/chair_0890.off"]
  else if String.eqb pattern "/root/.keras/datasets/ModelNet10/sofa/train/*"
  then ["/root/.keras/datasets/ModelNet10/sofa/train/sofa_0001.off"]
  else if String.eqb pattern "/root/.keras/datasets/ModelNet10/sofa/test/*"
  then ["/root/.keras/datasets/ModelNet10/sofa/test/sofa_0681.off"]
  else [].

Definition one_hot (k : nat) : list Qc :=
  map (fun j => if Nat.eqb j k then qz 1 else qz 0) (seq 0 NUM_CLASSES).

Definition sunny_world : World := {|
  raises := fun _ _ => None;
  get_file_result := fun _ => "/root/.keras/datasets/modelnet.zip";
  glob_result := fun _ pattern => sunny_glob pattern;
  load_result := fun _ path => Trimesh path;
  sample_result := fun _ _ count => unit_cloud count;
  uniform_result := fun _ shape minval _ =>
    repeat (repeat minval (nth 1 shape 0)) (nth 0 shape 0);
  shuffle_result := fun _ m => rev m;
  iterate_result := fun _ _ => [(repeat (unit_cloud 2) 8, [0; 1; 0; 1; 1; 0; 1; 0])];
  predict_result := fun _ _ points => map (fun _ => one_hot 1) points
|}.

(** ** Part IX. Properties of computations *)

(** A call that returned. *)
Definition returned (ev : event) : Prop :=
  match ev with
  | Called _ => True
  | Raised _ _ => False
  end.

(** The run ended normally and nothing was raised, or it ended with the
    exception [e], which is the last entry of the trace and the only one
    raised: nothing caught it, and nothing ran after it. *)
Definition propagated {A} (r : result A) : Prop :=
  match outcome r with
  | inr _ => Forall returned (emitted r)
  | inl e => exists t c, emitted r = t ++ [Raised c e] /\ Forall returned t
  end.

Definition Propagates {A} (m : M A) : Prop := forall s, propagated (m s).

(** Every trace entry of [m] satisfies [P]. *)
Definition Emits {A} (P : event -> Prop) (m : M A) : Prop :=
  forall s, Forall P (emitted (m s)).

(** A normal run of [m] leaves at least one entry that belongs to a stage. *)
Definition Covers {A} (m : M A) : Prop :=
  forall s a, outcome (m s) = inr a -> stages (emitted (m s)) <> [].

(** [m] leaves every dictionary as it found it. *)
Definition HeapFrame {A} (m : M A) : Prop :=
  forall s, heap (final (m s)) = heap s.

Definition in_stage (k : stage) (ev : event) : Prop :=
  match stage_of_call (call_of ev) with
  | Some st => st = k
  | None => True
  end.

(** The configuration values a call consumes. *)
Definition config_ok (ev : event) : Prop :=
  match call_of ev with
  | Call_sample count => count = 2048
  | Call_Input shape => shape = [2048; 3]
  | Call_batch n => n = 32
  | Call_layer (Dense units (Some _) _ _ _) => units = 10
  | Call_Adam lr => lr = Q2Qc (1 # 1000)
  | Call_fit epochs => epochs = 20
  | _ => True
  end.

(** A normal run of [m] goes through the stages [ks], in this order; a run
    that raises goes through an initial part of them. *)
Definition Phased {A} (ks : list stage) (m : M A) : Prop :=
  forall s,
    match outcome (m s) with
    | inr _ => phases (stages (emitted (m s))) = phases ks
    | inl _ => phases (stages (emitted (m s))) `prefix_of` phases ks
    end.

(** A normal run of [m] makes the call [c]. *)
Definition Calls {A} (c : call) (m : M A) : Prop :=
  forall s a, outcome (m s) = inr a -> In (Called c) (emitted (m s)).

(** An environment in which one training mesh cannot be read. *)
Definition missing_file_world : World := {|
  raises := fun _ c =>
    match c with
    | Call_trimesh_load path =>
      if String.eqb path "/root/.keras/datasets/ModelNet10/sofa/train/sofa_0001.off"
      then Some (OSError "No such file or directory")
      else None
    | _ => None
    end;
  get_file_result := get_file_result sunny_world;
  glob_result := glob_result sunny_world;
  load_result := load_result sunny_world;
  sample_result := sample_result sunny_world;
  uniform_result := uniform_result sunny_world;
  shuffle_result := shuffle_result sunny_world;
  iterate_result := iterate_result sunny_world;
  predict_result := predict_result sunny_world
|}.

(** ** Part X. Contracts of the libraries; shapes, labels and jitter *)

(** An array of [n] points with [c] coordinates each. *)
Definition has_shape (n c : nat) (m : matrix) : Prop :=
  length m = n /\ Forall (fun r => length r = c) m.

(** trimesh: [mesh.sample(count)] returns [count] points of 3 coordinates. *)
Definition sample_contract (w : World) : Prop :=
  forall t src count, has_shape count 3 (sample_result w t src count).

(** [cloud] was sampled from a mesh file matched under [sub] in the class
    folder of index [label]. *)
Definition sampled_from (w : World) (folders : list string) (num_points : nat)
    (sub : string) (cloud : matrix) (label : nat) : Prop :=
  exists folder f src t1 t2 t3,
    folders !! label = Some folder /\
    f ∈ glob_result w t1 (os_path_join folder sub) /\
    load_result w t2 f = Trimesh src /\
    cloud = sample_result w t3 src num_points.

(** The dictionary [parse_dataset] fills from the enumerated folders. *)
Definition dict_of (done : list (nat * string)) : gmap nat string :=
  foldl (fun d p => <[p.1 := getitem_last (str_split slash p.2)]> d) ∅ done.

(** An environment with one class folder holding one training mesh, whose
    sample of [n] points is [cloud]. *)
Definition single_mesh_glob (pattern : string) : list string :=
  if String.eqb pattern "d/[!README]*" then ["d/c"]
  else if String.eqb pattern "d/c/train/*" then ["d/c/train/m.off"]
  else [].

Definition single_mesh_world (n : nat) (cloud : matrix) : World := {|
  raises := fun _ _ => None;
  get_file_result := fun _ => "d.zip";
  glob_result := fun _ pattern => single_mesh_glob pattern;
  load_result := fun _ path => Trimesh path;
  sample_result := fun _ _ count => if decide (count = n) then cloud else unit_cloud count;
  uniform_result := uniform_result sunny_world;
  shuffle_result := shuffle_result sunny_world;
  iterate_result := iterate_result sunny_world;
  predict_result := predict_result sunny_world
|}.

(** Every cloud in the four lists is paired with the index of its folder. *)
Definition labelled (w : World) (folders : list string) (num_points : nat)
    (acc : lists) : Prop :=
  Forall2 (sampled_from w folders num_points "train/*") acc.1.1.1 acc.1.1.2 /\
  Forall2 (sampled_from w folders num_points "test/*") acc.1.2 acc.2.

(** TensorFlow: [tf.random.uniform(shape, minval, maxval)] returns a tensor
    of that shape with entries in the half-open range [[minval, maxval)]. *)
Definition uniform_contract (w : World) : Prop :=
  forall t n c lo hi, (lo < hi)%Qc ->
    length (uniform_result w t [n; c] lo hi) = n /\
    Forall (fun r => length r = c /\ Forall (fun v => (lo <= v)%Qc /\ (v < hi)%Qc) r)
           (uniform_result w t [n; c] lo hi).

(** TensorFlow: [tf.random.shuffle] permutes along the first axis. *)
Definition shuffle_contract (w : World) : Prop :=
  forall t m, Permutation m (shuffle_result w t m).

(** A two-dimensional array: all rows have the length [points.shape[1]]. *)
Definition rectangular (m : matrix) : Prop :=
  Forall (fun r => length r = nth 1 (mat_shape m) 0) m.

(** The rows of [out] are a permutation of the rows of [points], each
    coordinate moved by an amount within [bound]. *)
Definition jittered (bound : Qc -> Prop) (points out : matrix) : Prop :=
  exists noise,
    Forall2 (Forall2 (fun _ v => bound v)) points noise /\
    Permutation (mat_add points noise) out.

Definition strictly_within_jitter (v : Qc) : Prop := (Qcabs v < jitter_max)%Qc.

Definition in_jitter_range (v : Qc) : Prop := (jitter_min <= v)%Qc /\ (v < jitter_max)%Qc.

(** A batch of two samples of shape (2, 3), and the alignment network built
    over an input of that shape in the environment where no call raises. *)
Definition sample_batch : list (list Qc) :=
  [map qz [1; 2; 3; 4; 5; 6]%Z; map qz [0; -1; 0; 2; 0; 7]%Z].

Definition small_tnet : node :=
  match outcome (tnet sunny_world (Input [2; 3]) 3 s0) with
  | inr nd => nd
  | inl _ => Input []
  end.

(** Stand-ins for the framework layers in concrete runs. *)
Definition halving_layer (uid : nat) (l : layer) (batch : list (list Qc)) (h : list Qc)
  : list Qc :=
  map (fun v => (v * Q2Qc (1 # 2))%Qc) h.

Definition ones_kernel (uid d units : nat) : list (list Qc) :=
  repeat (repeat 1%Qc units) d.

Definition no_activation (name : string) (h : list Qc) : list Qc := h.

(** The exception of a Keras shape check. *)
Definition shape_error : exc := ValueError "incompatible input shape".

(** [c in s] *)
Fixpoint str_contains (c : ascii) (s : string) : bool :=
  match s with
  | EmptyString => false
  | String d r => Ascii.eqb d c || str_contains c r
  end.

(** Labels appended class by class: in order, and all below [k]. *)
Definition ordered_below (k : nat) (labels : list nat) : Prop :=
  Sorted le labels /\ Forall (fun v => v < k) labels.

Definition ordered_upto (i : nat) (labels : list nat) : Prop :=
  Sorted le labels /\ Forall (fun v => v <= i) labels.

(** A directory tree that does not change while the notebook runs: [glob]
    matches the same files whenever it is asked. *)
Definition stable_glob (w : World) : Prop :=
  forall t t' pattern, glob_result w t pattern = glob_result w t' pattern.

(** The labels of the files matched under [sub] in the enumerated class
    folders: the index of each folder, once per file, folder by folder. *)
Definition labels_of (w : World) (t : nat) (sub : string)
    (indexed : list (nat * string)) : list nat :=
  flat_map (fun p => repeat p.1 (length (glob_result w t (os_path_join p.2 sub)))) indexed.

(** * Theorems *)

(** ** Arithmetic on [Qc] *)

Lemma Qc_sq_nonneg (v : Qc) : (0 <= v * v)%Qc.
Proof.
  destruct (Qclt_le_dec v 0) as [Hneg | Hpos].
  - replace (v * v)%Qc with ((- v) * (- v))%Qc by ring.
    assert (0 <= - v)%Qc as Hv.
    { apply Qclt_le_weak in Hneg. apply Qcle_minus_iff in Hneg.
      now rewrite Qcplus_0_l in Hneg. }
    rewrite <- (Qcmult_0_l (- v)). now apply Qcmult_le_compat_r.
  - rewrite <- (Qcmult_0_l v). now apply Qcmult_le_compat_r.
Qed.

Lemma Qc_mul_nonneg (a b : Qc) : (0 <= a)%Qc -> (0 <= b)%Qc -> (0 <= a * b)%Qc.
Proof.
  intros Ha Hb. rewrite <- (Qcmult_0_l b). now apply Qcmult_le_compat_r.
Qed.

Lemma Qcsum_nonneg (l : list Qc) :
  Forall (fun v => (0 <= v)%Qc) l -> (0 <= Qcsum l)%Qc.
Proof.
  induction 1 as [| v l Hv _ IH]; simpl.
  - apply Qcle_refl.
  - now apply Qcplus_nonneg_nonneg.
Qed.

Lemma Qcsum_zero (l : list Qc) : Forall (fun v => v = 0%Qc) l -> Qcsum l = 0%Qc.
Proof.
  induction 1 as [| v l Hv _ IH]; simpl; [reflexivity |].
  rewrite Hv, IH. ring.
Qed.

Lemma Qcsum_app (l1 l2 : list Qc) : Qcsum (l1 ++ l2) = (Qcsum l1 + Qcsum l2)%Qc.
Proof.
  induction l1 as [| v l1 IH]; simpl; [ring |]. rewrite IH. ring.
Qed.

(** ** The regularizer *)

Lemma length_eye_buffer (n : nat) : length (eye_buffer n) = n * n.
Proof.
  unfold eye_buffer.
  assert (forall l : list nat,
    length (flat_map (fun i => map (fun j => eye_at i j) (seq 0 n)) l) = length l * n) as H.
  { induction l as [| a l IH]; simpl; [reflexivity |].
    rewrite length_app, length_map, length_seq, IH. reflexivity. }
  rewrite H, length_seq. reflexivity.
Qed.

Lemma length_tensordot22 (k n : nat) (x : buffer) :
  length (tensordot22 k n x) = (k * n) * (k * n).
Proof.
  unfold tensordot22.
  assert (forall l : list nat,
    length (flat_map (fun r => map (fun s => dot (row_of n x r) (row_of n x s))
                                   (seq 0 (k * n))) l) = length l * (k * n)) as H.
  { induction l as [| a l IH]; simpl; [reflexivity |].
    rewrite length_app, length_map, length_seq, IH. reflexivity. }
  rewrite H, length_seq. reflexivity.
Qed.

(** The second reshape never raises. *)
Lemma reshape_infer_tensordot22 (k n : nat) (x : buffer) :
  exists k', reshape_infer (tensordot22 k n x) n = Some k'.
Proof.
  unfold reshape_infer. rewrite length_tensordot22.
  destruct (Nat.eqb_spec n 0) as [-> | Hn].
  - rewrite Nat.mul_0_r. simpl. now exists 0.
  - replace (k * n * (k * n)) with ((k * k) * (n * n)) by lia.
    rewrite Nat.Div0.mod_mul. simpl. eauto.
Qed.

Lemma reshape_infer_Some (x : buffer) (n k : nat) :
  reshape_infer x n = Some k -> length x = k * (n * n).
Proof.
  unfold reshape_infer.
  destruct (Nat.eqb_spec n 0) as [-> | Hn].
  - destruct (Nat.eqb_spec (length x) 0) as [Hx |]; [| discriminate].
    intros [= <-]. exact Hx.
  - destruct (Nat.eqb_spec (length x mod (n * n)) 0) as [Hm |]; [| discriminate].
    intros [= <-]. pose proof (Nat.div_mod_eq (length x) (n * n)). lia.
Qed.

(** The regularizer returns a value on every input it can reshape. *)
Lemma OrthogonalRegularizer_call_eq (self : OrthogonalRegularizer) (x : buffer) (k : nat) :
  reshape_infer x (num_features self) = Some k ->
  OrthogonalRegularizer_call self x =
    Some (tf_reduce_sum (scale (l2reg self) (tf_square
            (broadcast_sub (tensordot22 k (num_features self) x) (eye self))))).
Proof.
  intros Hk. unfold OrthogonalRegularizer_call. rewrite Hk.
  destruct (reshape_infer_tensordot22 k (num_features self) x) as [k' Hk'].
  now rewrite Hk'.
Qed.

Lemma penalty_nonneg (l2 : Qc) (d : buffer) :
  (0 <= l2)%Qc -> (0 <= tf_reduce_sum (scale l2 (tf_square d)))%Qc.
Proof.
  intros Hl2. unfold tf_reduce_sum, scale, tf_square.
  apply Qcsum_nonneg. rewrite !Forall_map. apply Forall_forall. intros v _.
  apply Qc_mul_nonneg; [assumption | apply Qc_sq_nonneg].
Qed.

Lemma penalty_of_zeros (l2 : Qc) (d : buffer) :
  Forall (fun v => v = 0%Qc) d -> tf_reduce_sum (scale l2 (tf_square d)) = 0%Qc.
Proof.
  intros Hd. unfold tf_reduce_sum, scale, tf_square.
  apply Qcsum_zero. rewrite !Forall_map.
  eapply Forall_impl; [exact Hd |]. intros v ->. ring.
Qed.

Lemma broadcast_self_zero (e : buffer) (c : nat) :
  Forall (fun v => v = 0%Qc)
         (imap (fun f v => (v - nth ((c * length e + f) mod length e) e 0)%Qc) e).
Proof.
  apply Forall_lookup_2. intros i v Hi.
  rewrite list_lookup_imap in Hi.
  destruct (e !! i) as [u |] eqn:Hu; simpl in Hi; [| discriminate].
  injection Hi as <-.
  pose proof (lookup_lt_Some _ _ _ Hu) as Hlt.
  rewrite Nat.add_comm, Nat.Div0.mod_add, Nat.mod_small by assumption.
  apply (nth_lookup_Some _ _ 0%Qc) in Hu. rewrite Hu. ring.
Qed.

Lemma broadcast_copies_zero (e : buffer) (m c : nat) :
  Forall (fun v => v = 0%Qc)
         (imap (fun f v => (v - nth ((c * length e + f) mod length e) e 0)%Qc)
               (List.concat (repeat e m))).
Proof.
  revert c. induction m as [| m IH]; intros c; simpl.
  - constructor.
  - rewrite imap_app. apply Forall_app. split.
    + apply broadcast_self_zero.
    + specialize (IH (S c)).
      erewrite imap_ext; [exact IH |].
      intros i v _. simpl. f_equal. f_equal. f_equal. lia.
Qed.

Lemma broadcast_sub_copies (e : buffer) (m : nat) :
  Forall (fun v => v = 0%Qc) (broadcast_sub (List.concat (repeat e m)) e).
Proof.
  unfold broadcast_sub. pose proof (broadcast_copies_zero e m 0) as H.
  erewrite imap_ext; [exact H |]. intros i v _. reflexivity.
Qed.

Lemma concat_identity_rows (n : nat) : List.concat (identity_rows n) = eye_buffer n.
Proof.
  unfold identity_rows, eye_buffer. now rewrite flat_map_concat_map.
Qed.

(** For a single matrix the product tensor is [X * X^T], row by row. *)
Lemma tensordot22_single (n : nat) (x : buffer) :
  tensordot22 1 n x = List.concat (mul_transpose (matrix_at n x 0)).
Proof.
  unfold tensordot22, mul_transpose, matrix_at.
  rewrite Nat.mul_1_l, flat_map_concat_map. f_equal.
  rewrite !map_map. apply map_ext. intros r.
  rewrite map_map. reflexivity.
Qed.

Lemma nth_flat_map_seq {A} (g : nat -> list A) (n m s i j : nat) (d : A) :
  (forall a, length (g a) = n) -> i < m -> j < n ->
  nth (i * n + j) (flat_map g (seq s m)) d = nth j (g (s + i)) d.
Proof.
  intros Hg. revert s i. induction m as [| m IH]; intros s i Hi Hj; [lia |].
  simpl. destruct i as [| i].
  - rewrite Nat.add_0_r. simpl. apply app_nth1. now rewrite Hg.
  - rewrite app_nth2 by (rewrite Hg; simpl; lia).
    rewrite Hg. replace (S i * n + j - n) with (i * n + j) by (simpl; lia).
    rewrite IH by lia. f_equal. f_equal. lia.
Qed.

Lemma nth_eye_buffer (n i j : nat) :
  i < n -> j < n -> nth (i * n + j) (eye_buffer n) 0%Qc = eye_at i j.
Proof.
  intros Hi Hj. unfold eye_buffer.
  rewrite (nth_flat_map_seq _ n) by (try assumption; intros; now rewrite length_map, length_seq).
  simpl. rewrite (nth_indep _ _ (eye_at i 0)) by (now rewrite length_map, length_seq).
  rewrite (map_nth (fun j => eye_at i j)), seq_nth by assumption. reflexivity.
Qed.

Lemma penalty_rows (l2 : Qc) (n : nat) (G : list (list Qc)) (i0 : nat) :
  Forall (fun r => length r = n) G -> i0 + length G <= n ->
  Qcsum (scale l2 (tf_square
    (imap (fun f v => (v - nth ((i0 * n + f) mod (n * n)) (eye_buffer n) 0)%Qc)
          (List.concat G)))) =
  (l2 * Qcsum (imap (fun i r =>
     Qcsum (imap (fun j v => ((v - eye_at (i0 + i) j) * (v - eye_at (i0 + i) j))%Qc) r)) G))%Qc.
Proof.
  intros HG. revert i0. induction HG as [| r G Hr HG IH]; intros i0 Hle; simpl.
  - ring.
  - simpl in Hle. rewrite imap_app. unfold scale, tf_square in *.
    rewrite !map_app, Qcsum_app.
    specialize (IH (S i0) ltac:(lia)).
    erewrite (imap_ext _ (fun f v => (v - nth ((S i0 * n + f) mod (n * n)) (eye_buffer n) 0)%Qc)
                (List.concat G)).
    2:{ intros i v _. simpl. rewrite Hr. f_equal. f_equal. f_equal. lia. }
    rewrite IH. clear IH.
    erewrite (imap_ext _ (fun j v => (v - eye_at i0 j)%Qc) r).
    2:{ intros j v Hj. simpl. apply lookup_lt_Some in Hj. rewrite Hr in Hj.
        rewrite Nat.mod_small by nia. rewrite nth_eye_buffer by lia. reflexivity. }
    rewrite Nat.add_0_r.
    erewrite (imap_ext (fun i r0 => Qcsum (imap (fun j v =>
                ((v - eye_at (S i0 + i) j) * (v - eye_at (S i0 + i) j))%Qc) r0))
                (fun i r0 => Qcsum (imap (fun j v =>
                ((v - eye_at (i0 + S i) j) * (v - eye_at (i0 + S i) j))%Qc) r0)) G).
    2:{ intros i r0 _. simpl. now rewrite <- plus_n_Sm. }
    assert (forall (l : list Qc) (h : nat -> Qc -> Qc),
      Qcsum (map (fun v => (l2 * v)%Qc) (map (fun v => (v * v)%Qc) (imap h l))) =
      (l2 * Qcsum (imap (fun j v => (h j v * h j v)%Qc) l))%Qc) as Hsum.
    { clear. induction l as [| a l IHl]; intros h; simpl; [ring |].
      rewrite IHl. unfold compose. ring. }
    rewrite Hsum. unfold compose. ring.
Qed.

(** On a single matrix ([k = 1]) the regularizer is the penalty the text
    describes. *)
Lemma OrthogonalRegularizer_call_single (l2 : Qc) (n : nat) (x : buffer) :
  reshape_infer x n = Some 1 ->
  OrthogonalRegularizer_call (OrthogonalRegularizer_init n l2) x =
    Some (orthogonality_penalty l2 1 n x).
Proof.
  intros Hk. rewrite (OrthogonalRegularizer_call_eq _ _ 1) by exact Hk.
  f_equal. simpl. unfold tf_reduce_sum, broadcast_sub, tf_eye, orthogonality_penalty.
  rewrite length_eye_buffer, tensordot22_single.
  pose proof (penalty_rows l2 n (mul_transpose (matrix_at n x 0)) 0) as H.
  simpl in H. simpl. rewrite H.
  - unfold sq_deviation. ring.
  - unfold mul_transpose, matrix_at. rewrite Forall_map. apply Forall_forall.
    intros r _. now rewrite !length_map, length_seq.
  - unfold mul_transpose, matrix_at. now rewrite !length_map, length_seq.
Qed.

(** C1 (the code departs from the claim): on a batch of two 3 by 3 identity
    matrices, as the alignment network produces them at initialisation, the
    regularizer accepts the input as shape (2, 3, 3) and returns 2/125, while
    l2reg times the summed squared deviation of each X * X^T from the
    identity is 0: [tf.tensordot] also multiplies rows of different
    matrices, and the second reshape lines the products up against the
    wrong rows of the identity. *)
Theorem C1_penalty_on_two_identities :
  reshape_infer two_identities 3 = Some 2 /\
  (exists p,
     OrthogonalRegularizer_call (OrthogonalRegularizer_init 3 default_l2reg)
                                two_identities = Some p /\
     p = Q2Qc (2 # 125)) /\
  orthogonality_penalty default_l2reg 2 3 two_identities = 0%Qc.
Proof.
  split; [reflexivity |]. split.
  - eexists. split; [reflexivity |]. apply Qc_is_canon. vm_compute. reflexivity.
  - apply Qc_is_canon. vm_compute. reflexivity.
Qed.

(** C10 as stated fails, in two ways.  With a negative [l2reg] the penalty
    is negative: that of the 1 by 1 zero matrix with [l2reg = -1] is -1.
    And on the batch of two 3 by 3 identity matrices every [X * X^T] is the
    identity, yet the penalty is not zero. *)
Lemma C10_negative_l2reg_and_batch :
  (exists p,
     OrthogonalRegularizer_call (OrthogonalRegularizer_init 1 (qz (-1))) [qz 0] = Some p /\
     (p < 0)%Qc) /\
  (reshape_infer two_identities 3 = Some 2 /\
   (forall a, a < 2 ->
      mul_transpose (matrix_at 3 two_identities a) = identity_rows 3) /\
   OrthogonalRegularizer_call (OrthogonalRegularizer_init 3 default_l2reg) two_identities
     <> Some 0%Qc).
Proof.
  split; [eexists; split; [reflexivity | vm_compute; reflexivity] |].
  split; [reflexivity |]. split.
  - intros a Ha. destruct a as [| [| a]]; [| | lia];
      unfold mul_transpose, matrix_at, identity_rows; simpl;
      repeat (f_equal; try (apply Qc_is_canon; reflexivity)).
  - intros H. apply (inj Some) in H. apply (f_equal this) in H.
    vm_compute in H. discriminate.
Qed.

(** C10 (amended): on every input the regularizer can reshape, it returns a
    penalty [p]; [p] is nonnegative whenever [l2reg] is (as the default
    0.001 is); and, for every [l2reg], [p] is zero when the input is a
    single matrix [X] with [X * X^T] the identity.  Nothing is said about
    when the penalty of a batch of two or more matrices is zero. *)
Theorem C10_penalty_nonneg_zero (l2 : Qc) (n k : nat) (x : buffer) :
  reshape_infer x n = Some k ->
  exists p,
    OrthogonalRegularizer_call (OrthogonalRegularizer_init n l2) x = Some p /\
    ((0 <= l2)%Qc -> (0 <= p)%Qc) /\
    (k = 1 -> mul_transpose (matrix_at n x 0) = identity_rows n -> p = 0%Qc).
Proof.
  intros Hk. eexists. split; [apply OrthogonalRegularizer_call_eq; exact Hk |].
  simpl. split.
  - intros Hl2. now apply penalty_nonneg.
  - intros -> Horth. rewrite tensordot22_single, Horth, concat_identity_rows.
    apply penalty_of_zeros.
    pose proof (broadcast_sub_copies (tf_eye n) 1) as H. simpl in H.
    now rewrite app_nil_r in H.
Qed.

Lemma C10_penalty_nonneg_zero_witness :
  exists p,
    OrthogonalRegularizer_call (OrthogonalRegularizer_init 3 default_l2reg) one_identity
      = Some p /\ (0 <= p)%Qc /\ p = 0%Qc.
Proof.
  destruct (C10_penalty_nonneg_zero default_l2reg 3 1 one_identity eq_refl)
    as (p & Hcall & Hnonneg & Hzero).
  exists p. split; [exact Hcall |]. split.
  - apply Hnonneg. vm_compute. discriminate.
  - apply Hzero; [reflexivity |].
    unfold mul_transpose, matrix_at, identity_rows. simpl.
    repeat (f_equal; try (apply Qc_is_canon; reflexivity)).
Defined.

(** ** Paths *)

Lemma str_from_0 (s : string) : str_from 0 s = s.
Proof. destruct s; reflexivity. Qed.

Lemma str_split_rfind (sep : ascii) (s : string) :
  match rfind_nat sep s with
  | None => str_split sep s = [s]
  | Some i =>
    (exists h t, str_split sep s = h :: t /\ t <> []) /\
    List.last (str_split sep s) EmptyString = str_from (S i) s
  end.
Proof.
  induction s as [| c r IH]; simpl; [reflexivity |].
  destruct (rfind_nat sep r) as [i |].
  - destruct IH as [(h & t & Hsplit & Ht) Hlast]. rewrite Hsplit in *.
    destruct (Ascii.eqb c sep).
    + split; [exists EmptyString, (h :: t); split; [reflexivity | discriminate] |].
      exact Hlast.
    + split; [exists (String c h), t; split; [reflexivity | assumption] |].
      destruct t as [| h' t]; [contradiction |]. exact Hlast.
  - rewrite IH. destruct (Ascii.eqb c sep).
    + split; [exists EmptyString, [r]; split; [reflexivity | discriminate] |].
      simpl. destruct r; reflexivity.
    + reflexivity.
Qed.

(** [folder.split("/")[-1]] is [os.path.basename(folder)]. *)
Lemma split_last_basename (p : string) :
  getitem_last (str_split slash p) = os_path_basename p.
Proof.
  unfold getitem_last, os_path_basename, str_rfind.
  pose proof (str_split_rfind slash p) as H.
  destruct (rfind_nat slash p) as [i |].
  - destruct H as [_ ->]. f_equal. lia.
  - rewrite H. simpl. destruct p; reflexivity.
Qed.

(** ** The execution monad *)

Lemma bind_run {A B} (m : M A) (f : A -> M B) (s : state) :
  (m ≫= f) s =
  match outcome (m s) with
  | inl e => mkResult (emitted (m s)) (inl e) (final (m s))
  | inr a => mkResult (emitted (m s) ++ emitted (f a (final (m s))))
                      (outcome (f a (final (m s)))) (final (f a (final (m s))))
  end.
Proof. reflexivity. Qed.

Lemma bind_success {A B} (m : M A) (f : A -> M B) (s : state) (b : B) :
  outcome ((m ≫= f) s) = inr b ->
  exists a, outcome (m s) = inr a /\ outcome (f a (final (m s))) = inr b.
Proof.
  rewrite bind_run. destruct (outcome (m s)) as [e | a]; simpl; [discriminate |].
  intros H. now exists a.
Qed.

Lemma bind_run_success {A B} (m : M A) (f : A -> M B) (s : state) (a : A) :
  outcome (m s) = inr a ->
  (m ≫= f) s = mkResult (emitted (m s) ++ emitted (f a (final (m s))))
                        (outcome (f a (final (m s)))) (final (f a (final (m s)))).
Proof. intros H. rewrite bind_run, H. reflexivity. Qed.

Section Closure.
Context (w : World).

(** *** Exceptions propagate *)

Lemma Propagates_ret {A} (a : A) : Propagates (mret a : M A).
Proof. intros s. constructor. Qed.

Lemma Propagates_bind {A B} (m : M A) (f : A -> M B) :
  Propagates m -> (forall a, Propagates (f a)) -> Propagates (m ≫= f).
Proof.
  intros Hm Hf s. specialize (Hm s). unfold propagated in *. rewrite bind_run.
  destruct (outcome (m s)) as [e | a]; simpl; [exact Hm |].
  specialize (Hf a (final (m s))). unfold propagated in Hf.
  destruct (outcome (f a (final (m s)))) as [e | b].
  - destruct Hf as (t & c & -> & Ht). exists (emitted (m s) ++ t), c.
    split; [now rewrite app_assoc | now apply Forall_app].
  - now apply Forall_app.
Qed.

Lemma Propagates_throw {A} (c : call) (e : exc) : Propagates (throw c e : M A).
Proof. intros s. exists [], c. split; [reflexivity | constructor]. Qed.

Lemma Propagates_lib {A} (c : call) (v : nat -> A) : Propagates (lib w c v).
Proof.
  intros s. unfold propagated, lib. destruct (raises w (clock s) c) as [e |]; simpl.
  - exists [], c. split; [reflexivity | constructor].
  - repeat constructor.
Qed.

Lemma Propagates_for_each {A B} (l : list A) (body : A -> B -> M B) (acc : B) :
  (forall x b, Propagates (body x b)) -> Propagates (for_each l body acc).
Proof.
  intros Hbody. revert acc. induction l as [| x l IH]; intros acc; simpl.
  - apply Propagates_ret.
  - apply Propagates_bind; [apply Hbody | exact IH].
Qed.

Lemma Propagates_dict_new : Propagates dict_new.
Proof. intros s. constructor. Qed.

Lemma Propagates_dict_setitem (loc key : nat) (v : string) :
  Propagates (dict_setitem loc key v).
Proof. intros s. constructor. Qed.

Lemma Propagates_dict_getitem (loc key : nat) : Propagates (dict_getitem loc key).
Proof.
  intros s. unfold dict_getitem.
  destruct (heap s !! loc ≫= _); [constructor | apply Propagates_throw].
Qed.

Lemma Propagates_getitem {A} (l : list A) (i : nat) : Propagates (getitem l i).
Proof.
  unfold getitem. destruct (l !! i); [apply Propagates_ret | apply Propagates_throw].
Qed.

(** *** Trace entries *)

Lemma Emits_ret {A} (P : event -> Prop) (a : A) : Emits P (mret a : M A).
Proof. intros s. constructor. Qed.

Lemma Emits_bind {A B} (P : event -> Prop) (m : M A) (f : A -> M B) :
  Emits P m -> (forall a, Emits P (f a)) -> Emits P (m ≫= f).
Proof.
  intros Hm Hf s. rewrite bind_run. specialize (Hm s).
  destruct (outcome (m s)) as [e | a]; simpl; [exact Hm |].
  apply Forall_app. split; [exact Hm | apply Hf].
Qed.

Lemma Emits_throw {A} (P : event -> Prop) (c : call) (e : exc) :
  P (Raised c e) -> Emits P (throw c e : M A).
Proof. intros H s. repeat constructor. exact H. Qed.

Lemma Emits_lib {A} (P : event -> Prop) (c : call) (v : nat -> A) :
  P (Called c) -> (forall e, P (Raised c e)) -> Emits P (lib w c v).
Proof.
  intros Hc Hr s. unfold lib. destruct (raises w (clock s) c); simpl;
    repeat constructor; auto.
Qed.

Lemma Emits_for_each {A B} (P : event -> Prop) (l : list A) (body : A -> B -> M B)
    (acc : B) :
  (forall x b, Emits P (body x b)) -> Emits P (for_each l body acc).
Proof.
  intros Hbody. revert acc. induction l as [| x l IH]; intros acc; simpl.
  - apply Emits_ret.
  - apply Emits_bind; [apply Hbody | exact IH].
Qed.

Lemma Emits_dict_new (P : event -> Prop) : Emits P dict_new.
Proof. intros s. constructor. Qed.

Lemma Emits_dict_setitem (P : event -> Prop) (loc key : nat) (v : string) :
  Emits P (dict_setitem loc key v).
Proof. intros s. constructor. Qed.

Lemma Emits_dict_getitem (P : event -> Prop) (loc key : nat) :
  (forall e, P (Raised Call_getitem e)) -> Emits P (dict_getitem loc key).
Proof.
  intros H s. unfold dict_getitem.
  destruct (heap s !! loc ≫= _); [constructor | now apply Emits_throw].
Qed.

Lemma Emits_getitem {A} (P : event -> Prop) (l : list A) (i : nat) :
  (forall e, P (Raised Call_getitem e)) -> Emits P (getitem l i).
Proof.
  intros H. unfold getitem.
  destruct (l !! i); [apply Emits_ret | now apply Emits_throw].
Qed.

(** *** Dictionaries are left alone *)

Lemma HeapFrame_ret {A} (a : A) : HeapFrame (mret a : M A).
Proof. intros s. reflexivity. Qed.

Lemma HeapFrame_bind {A B} (m : M A) (f : A -> M B) :
  HeapFrame m -> (forall a, HeapFrame (f a)) -> HeapFrame (m ≫= f).
Proof.
  intros Hm Hf s. rewrite bind_run. specialize (Hm s).
  destruct (outcome (m s)) as [e | a]; simpl; [exact Hm |].
  now rewrite Hf.
Qed.

Lemma HeapFrame_throw {A} (c : call) (e : exc) : HeapFrame (throw c e : M A).
Proof. intros s. reflexivity. Qed.

Lemma HeapFrame_lib {A} (c : call) (v : nat -> A) : HeapFrame (lib w c v).
Proof. intros s. unfold lib. destruct (raises w (clock s) c); reflexivity. Qed.

Lemma HeapFrame_for_each {A B} (l : list A) (body : A -> B -> M B) (acc : B) :
  (forall x b, HeapFrame (body x b)) -> HeapFrame (for_each l body acc).
Proof.
  intros Hbody. revert acc. induction l as [| x l IH]; intros acc; simpl.
  - apply HeapFrame_ret.
  - apply HeapFrame_bind; [apply Hbody | exact IH].
Qed.

Lemma HeapFrame_dict_getitem (loc key : nat) : HeapFrame (dict_getitem loc key).
Proof.
  intros s. unfold dict_getitem. destruct (heap s !! loc ≫= _); reflexivity.
Qed.

Lemma HeapFrame_getitem {A} (l : list A) (i : nat) : HeapFrame (getitem l i).
Proof.
  unfold getitem. destruct (l !! i); [apply HeapFrame_ret | apply HeapFrame_throw].
Qed.

(** *** Stages reached *)

Lemma Covers_lib {A} (c : call) (v : nat -> A) :
  is_Some (stage_of_call c) -> Covers (lib w c v).
Proof.
  intros [st Hst] s a. unfold lib. destruct (raises w (clock s) c); simpl;
    [discriminate |].
  intros _. unfold stages. simpl. rewrite Hst. discriminate.
Qed.

Lemma stages_app (t1 t2 : list event) : stages (t1 ++ t2) = stages t1 ++ stages t2.
Proof. unfold stages. apply omap_app. Qed.

Lemma Covers_bind_l {A B} (m : M A) (f : A -> M B) : Covers m -> Covers (m ≫= f).
Proof.
  intros Hm s b Hb. destruct (bind_success _ _ _ _ Hb) as (a & Ha & _).
  rewrite (bind_run_success _ _ _ _ Ha). simpl. rewrite stages_app.
  specialize (Hm s a Ha). destruct (stages (emitted (m s))); [contradiction | discriminate].
Qed.

Lemma Covers_bind_r {A B} (m : M A) (f : A -> M B) :
  (forall a, Covers (f a)) -> Covers (m ≫= f).
Proof.
  intros Hf s b Hb. destruct (bind_success _ _ _ _ Hb) as (a & Ha & Hfa).
  rewrite (bind_run_success _ _ _ _ Ha). simpl. rewrite stages_app.
  specialize (Hf a _ b Hfa). intros Happ. apply app_eq_nil in Happ as [_ Hnil].
  contradiction.
Qed.

End Closure.

(** ** Stage sequences *)

Lemma merge_cons_head (a : stage) (p : list stage) : exists q, merge_cons a p = a :: q.
Proof.
  destruct p as [| b p]; simpl; [now exists [] |].
  destruct (decide (a = b)) as [-> |]; eauto.
Qed.

Lemma merge_cons_same (a : stage) (q : list stage) : merge_cons a (a :: q) = a :: q.
Proof. simpl. now rewrite decide_True. Qed.

Lemma phases_app (l1 l2 : list stage) :
  phases (l1 ++ l2) = foldr merge_cons (phases l2) l1.
Proof. unfold phases. apply foldr_app. Qed.

Lemma foldr_merge_phases (l p : list stage) :
  foldr merge_cons p (phases l) = foldr merge_cons p l.
Proof.
  induction l as [| a r IH]; [reflexivity |].
  change (phases (a :: r)) with (merge_cons a (phases r)). simpl.
  destruct (phases r) as [| b q] eqn:Hr; simpl.
  - destruct r as [| b r']; [reflexivity |].
    change (phases (b :: r')) with (merge_cons b (phases r')) in Hr.
    destruct (merge_cons_head b (phases r')) as [q Hq]. congruence.
  - destruct (decide (a = b)) as [-> | Hne].
    + rewrite <- IH. simpl.
      destruct (merge_cons_head b (foldr merge_cons p q)) as [q' Hq'].
      rewrite Hq'. now rewrite merge_cons_same.
    + simpl. now rewrite <- IH.
Qed.

Lemma phases_app_phases (l1 l2 : list stage) :
  phases (l1 ++ l2) = foldr merge_cons (phases l2) (phases l1).
Proof. now rewrite phases_app, foldr_merge_phases. Qed.

Lemma merge_cons_prefix (a : stage) (p P : list stage) :
  p `prefix_of` P -> merge_cons a p `prefix_of` merge_cons a P.
Proof.
  intros [k ->]. destruct p as [| b p]; simpl.
  - destruct (merge_cons_head a k) as [q Hq]. simpl in Hq.
    change (match k with [] => [a] | b :: _ => if decide (a = b) then k else a :: k end)
      with (merge_cons a k).
    rewrite Hq. now exists q.
  - destruct (decide (a = b)); [now exists k | now exists k].
Qed.

Lemma foldr_merge_prefix (l p P : list stage) :
  p `prefix_of` P -> foldr merge_cons p l `prefix_of` foldr merge_cons P l.
Proof.
  intros HpP. induction l as [| a l IH]; simpl; [assumption |].
  now apply merge_cons_prefix.
Qed.

Lemma phases_concat_eq (t1 t2 k1 k2 : list stage) :
  phases t1 = phases k1 -> phases t2 = phases k2 ->
  phases (t1 ++ t2) = phases (k1 ++ k2).
Proof. intros H1 H2. rewrite !phases_app_phases. congruence. Qed.

Lemma phases_concat_prefix (t1 t2 k1 k2 : list stage) :
  phases t1 = phases k1 -> phases t2 `prefix_of` phases k2 ->
  phases (t1 ++ t2) `prefix_of` phases (k1 ++ k2).
Proof.
  intros H1 H2. rewrite !phases_app_phases, H1. now apply foldr_merge_prefix.
Qed.

Lemma phases_prefix_app (t1 k1 k2 : list stage) :
  phases t1 `prefix_of` phases k1 -> phases t1 `prefix_of` phases (k1 ++ k2).
Proof.
  intros H. etrans; [exact H |]. rewrite phases_app.
  change (phases k1) with (foldr merge_cons [] k1).
  apply foldr_merge_prefix. now exists (phases k2).
Qed.

Lemma phases_all_same (k : stage) (l : list stage) :
  Forall (fun st => st = k) l -> phases l = [] \/ phases l = [k].
Proof.
  induction 1 as [| a l -> _ IH]; [now left |]. right.
  change (phases (k :: l)) with (merge_cons k (phases l)).
  destruct IH as [-> | ->]; [reflexivity | apply merge_cons_same].
Qed.

Lemma stages_in_stage (k : stage) (t : list event) :
  Forall (in_stage k) t -> Forall (fun st => st = k) (stages t).
Proof.
  induction 1 as [| ev t Hev _ IH]; [constructor |].
  unfold stages in *. simpl. unfold in_stage in Hev.
  destruct (stage_of_call (call_of ev)); [constructor; assumption | assumption].
Qed.

(** A strictly increasing sequence of phases means the stages are in order. *)
Lemma in_order_of_phases (l : list stage) :
  Sorted (fun a b => rank a < rank b) (phases l) -> in_order l.
Proof.
  unfold in_order. induction l as [| a r IH]; [constructor |].
  change (phases (a :: r)) with (merge_cons a (phases r)).
  destruct r as [| b r'].
  - intros _. repeat constructor.
  - change (phases (b :: r')) with (merge_cons b (phases r')) in *.
    destruct (merge_cons_head b (phases r')) as [q Hq]. rewrite Hq in *.
    simpl. destruct (decide (a = b)) as [-> | Hne]; intros Hs.
    + constructor; [now apply IH | constructor; lia].
    + apply Sorted_inv in Hs as [Hs Hhd]. constructor; [now apply IH |].
      constructor. apply HdRel_inv in Hhd. lia.
Qed.

Lemma Sorted_prefix {A} (R : A -> A -> Prop) (p l : list A) :
  p `prefix_of` l -> Sorted R l -> Sorted R p.
Proof.
  intros [k ->]. induction p as [| a p IH]; simpl; intros Hs; [constructor |].
  apply Sorted_inv in Hs as [Hs Hhd]. constructor; [now apply IH |].
  destruct p; simpl in *; [constructor |]. apply HdRel_inv in Hhd. now constructor.
Qed.

Lemma all_stages_increasing : Sorted (fun a b => rank a < rank b) all_stages.
Proof. unfold all_stages. repeat constructor; simpl; lia. Qed.

Lemma in_order_of_prefix (l : list stage) :
  phases l `prefix_of` all_stages -> in_order l.
Proof.
  intros H. apply in_order_of_phases.
  exact (Sorted_prefix _ _ _ H all_stages_increasing).
Qed.

(** ** Phases of computations *)

Section Phases.
Context (w : World).

Lemma Phased_ret {A} (a : A) : Phased [] (mret a : M A).
Proof. intros s. reflexivity. Qed.

Lemma Phased_bind {A B} (ks1 ks2 ks : list stage) (m : M A) (f : A -> M B) :
  Phased ks1 m -> (forall a, Phased ks2 (f a)) -> phases (ks1 ++ ks2) = phases ks ->
  Phased ks (m ≫= f).
Proof.
  intros Hm Hf Hks s. specialize (Hm s). rewrite bind_run, <- Hks.
  destruct (outcome (m s)) as [e | a]; simpl.
  - now apply phases_prefix_app.
  - specialize (Hf a (final (m s))). rewrite stages_app.
    destruct (outcome (f a (final (m s)))).
    + now apply phases_concat_prefix.
    + now apply phases_concat_eq.
Qed.

Lemma Phased_absorb {A B} (k : stage) (m : M A) (f : A -> M B) :
  Phased [k] m -> (forall a, Emits (in_stage k) (f a)) -> Phased [k] (m ≫= f).
Proof.
  intros Hm Hf s. specialize (Hm s). rewrite bind_run.
  destruct (outcome (m s)) as [e | a]; simpl; [exact Hm |].
  rewrite stages_app, phases_app_phases, Hm.
  pose proof (phases_all_same k _ (stages_in_stage k _ (Hf a (final (m s))))) as Hsame.
  assert (foldr merge_cons (phases (stages (emitted (f a (final (m s)))))) (phases [k])
          = phases [k]) as ->.
  { destruct Hsame as [-> | ->]; [reflexivity | apply merge_cons_same]. }
  destruct (outcome (f a (final (m s)))); [reflexivity | reflexivity].
Qed.

Lemma Phased_lib {A} (c : call) (v : nat -> A) (k : stage) :
  stage_of_call c = Some k -> Phased [k] (lib w c v).
Proof.
  intros Hk s. unfold lib. destruct (raises w (clock s) c); simpl;
    unfold stages; simpl; rewrite Hk; reflexivity.
Qed.

Lemma Phased_lib_unstaged {A} (c : call) (v : nat -> A) :
  stage_of_call c = None -> Phased [] (lib w c v).
Proof.
  intros Hk s. unfold lib. destruct (raises w (clock s) c); simpl;
    unfold stages; simpl; rewrite Hk; reflexivity.
Qed.

Lemma Phased_getitem {A} (l : list A) (i : nat) : Phased [] (getitem l i).
Proof.
  unfold getitem. destruct (l !! i); [apply Phased_ret |].
  intros s. now exists [].
Qed.

Lemma Phased_dict_new : Phased [] dict_new.
Proof. intros s. reflexivity. Qed.

End Phases.

(** ** The notebook's functions, property by property *)

Ltac unfold_calls :=
  unfold pip_install, tf_random_set_seed, get_file, glob_glob, print, trimesh_load,
    mesh_show, mesh_sample, plt_figure, add_subplot, ax_scatter, ax_set_axis_off,
    ax_set_title, plt_show, Dataset_from_tensor_slices, Dataset_shuffle,
    Dataset_map_augment, Dataset_batch, Dataset_take, list_dataset, keras_Input,
    apply_layer, layers_Dot, keras_Model, model_summary, Adam, model_compile,
    model_fit, model_predict, tf_math_argmax, tf_random_uniform, tensor_add,
    tf_random_shuffle.

Create HintDb notebook_propagates.
Create HintDb notebook_emits.
Create HintDb notebook_frame.

Ltac propagates :=
  unfold_calls;
  repeat lazymatch goal with
  | |- Propagates (mret _) => apply Propagates_ret
  | |- Propagates (_ ≫= _) => apply Propagates_bind; [| intros ?]
  | |- Propagates (throw _ _) => apply Propagates_throw
  | |- Propagates (lib _ _ _) => apply Propagates_lib
  | |- Propagates dict_new => apply Propagates_dict_new
  | |- Propagates (dict_setitem _ _ _) => apply Propagates_dict_setitem
  | |- Propagates (dict_getitem _ _) => apply Propagates_dict_getitem
  | |- Propagates (getitem _ _) => apply Propagates_getitem
  | |- Propagates (for_each _ _ _) => apply Propagates_for_each; intros ? ?
  | |- Propagates (match ?x with _ => _ end) => destruct x
  | |- Propagates ((match ?x with _ => _ end) _) => destruct x
  | |- Propagates ((fun _ => _) _) => cbv beta
  | |- Propagates _ => solve [eauto with notebook_propagates]
  end.

Ltac emits side :=
  unfold_calls;
  repeat lazymatch goal with
  | |- Emits _ (mret _) => apply Emits_ret
  | |- Emits _ (_ ≫= _) => apply Emits_bind; [| intros ?]
  | |- Emits _ (throw _ _) => apply Emits_throw; side
  | |- Emits _ (lib _ _ _) => apply Emits_lib; [side | intros ?; side]
  | |- Emits _ dict_new => apply Emits_dict_new
  | |- Emits _ (dict_setitem _ _ _) => apply Emits_dict_setitem
  | |- Emits _ (dict_getitem _ _) => apply Emits_dict_getitem; intros ?; side
  | |- Emits _ (getitem _ _) => apply Emits_getitem; intros ?; side
  | |- Emits _ (for_each _ _ _) => apply Emits_for_each; intros ? ?
  | |- Emits _ (match ?x with _ => _ end) => destruct x
  | |- Emits _ ((match ?x with _ => _ end) _) => destruct x
  | |- Emits _ ((fun _ => _) _) => cbv beta
  | |- Emits _ _ => solve [eauto with notebook_emits]
  end.

Ltac frame :=
  unfold_calls;
  repeat lazymatch goal with
  | |- HeapFrame (mret _) => apply HeapFrame_ret
  | |- HeapFrame (_ ≫= _) => apply HeapFrame_bind; [| intros ?]
  | |- HeapFrame (throw _ _) => apply HeapFrame_throw
  | |- HeapFrame (lib _ _ _) => apply HeapFrame_lib
  | |- HeapFrame (dict_getitem _ _) => apply HeapFrame_dict_getitem
  | |- HeapFrame (getitem _ _) => apply HeapFrame_getitem
  | |- HeapFrame (for_each _ _ _) => apply HeapFrame_for_each; intros ? ?
  | |- HeapFrame (match ?x with _ => _ end) => destruct x
  | |- HeapFrame ((match ?x with _ => _ end) _) => destruct x
  | |- HeapFrame ((fun _ => _) _) => cbv beta
  | |- HeapFrame _ => solve [eauto with notebook_frame]
  end.

Ltac stage_side := first [exact I | reflexivity | (simpl; exact I) | (simpl; reflexivity)].

Section Functions.
Context (w : World).

(** *** Exceptions *)

Lemma Propagates_parse_dataset (DATA_DIR : string) (num_points : nat) :
  Propagates (parse_dataset w DATA_DIR num_points).
Proof. unfold parse_dataset. propagates. Qed.

Lemma Propagates_augment (points : matrix) (label : nat) :
  Propagates (augment w points label).
Proof. unfold augment. propagates. Qed.

Lemma Propagates_conv_bn (x : node) (filters : nat) : Propagates (conv_bn w x filters).
Proof. unfold conv_bn. propagates. Qed.

Lemma Propagates_dense_bn (x : node) (filters : nat) : Propagates (dense_bn w x filters).
Proof. unfold dense_bn. propagates. Qed.

#[local] Hint Resolve Propagates_parse_dataset Propagates_conv_bn Propagates_dense_bn
  : notebook_propagates.

Lemma Propagates_tnet (x : node) (n : nat) : Propagates (tnet w x n).
Proof. unfold tnet. propagates. Qed.

#[local] Hint Resolve Propagates_tnet : notebook_propagates.

Lemma Propagates_cell_model : Propagates (cell_model w).
Proof. unfold cell_model. propagates. Qed.

Lemma Propagates_cell_visualize (CLASS_MAP : nat) (test_dataset : dataset) (model : node) :
  Propagates (cell_visualize w CLASS_MAP test_dataset model).
Proof. unfold cell_visualize. propagates. Qed.

#[local] Hint Resolve Propagates_cell_model Propagates_cell_visualize : notebook_propagates.

Lemma Propagates_notebook : Propagates (notebook w).
Proof.
  unfold notebook, pipeline, after_parse, cell_setup, cell_fetch, cell_preview,
    cell_datasets, cell_train.
  propagates.
Qed.

(** *** Stages of the trace entries *)

Lemma Emits_stage_conv_bn (x : node) (filters : nat) :
  Emits (in_stage ModelDefinition) (conv_bn w x filters).
Proof. unfold conv_bn. emits stage_side. Qed.

Lemma Emits_stage_dense_bn (x : node) (filters : nat) :
  Emits (in_stage ModelDefinition) (dense_bn w x filters).
Proof. unfold dense_bn. emits stage_side. Qed.

#[local] Hint Resolve Emits_stage_conv_bn Emits_stage_dense_bn : notebook_emits.

Lemma Emits_stage_tnet (x : node) (n : nat) :
  Emits (in_stage ModelDefinition) (tnet w x n).
Proof. unfold tnet. emits stage_side. Qed.

#[local] Hint Resolve Emits_stage_tnet : notebook_emits.

Lemma Phased_cell_setup : Phased [] (cell_setup w).
Proof.
  unfold cell_setup, pip_install, tf_random_set_seed.
  apply (Phased_bind [] []); [now apply Phased_lib_unstaged | | reflexivity].
  intros _. now apply Phased_lib_unstaged.
Qed.

Lemma Phased_cell_fetch : Phased [Fetch] (cell_fetch w).
Proof.
  unfold cell_fetch, get_file. apply Phased_absorb; [now apply Phased_lib |].
  intros a. emits stage_side.
Qed.

Lemma Phased_parse_dataset (DATA_DIR : string) (num_points : nat) :
  Phased [MeshSampling] (parse_dataset w DATA_DIR num_points).
Proof.
  unfold parse_dataset.
  apply (Phased_bind [] [MeshSampling]); [apply Phased_dict_new | | reflexivity].
  intros class_map. unfold glob_glob at 1.
  apply Phased_absorb; [now apply Phased_lib |].
  intros folders. emits stage_side.
Qed.

Lemma Phased_cell_datasets (train_points test_points : list matrix)
    (train_labels test_labels : list nat) :
  Phased [TensorDataset]
         (cell_datasets w train_points test_points train_labels test_labels).
Proof.
  unfold cell_datasets. unfold Dataset_from_tensor_slices at 1.
  apply Phased_absorb; [now apply Phased_lib |].
  intros d. emits stage_side.
Qed.

Lemma Phased_cell_model : Phased [ModelDefinition] (cell_model w).
Proof.
  unfold cell_model, keras_Input.
  apply Phased_absorb; [now apply Phased_lib |].
  intros inputs. emits stage_side.
Qed.

Lemma Phased_cell_train (model : node) (train_dataset test_dataset : dataset) :
  Phased [CompileFit] (cell_train w model train_dataset test_dataset).
Proof.
  unfold cell_train. unfold Adam.
  apply Phased_absorb; [now apply Phased_lib |].
  intros opt. emits stage_side.
Qed.

Lemma Phased_cell_visualize (CLASS_MAP : nat) (test_dataset : dataset) (model : node) :
  Phased [Inference; Plotting] (cell_visualize w CLASS_MAP test_dataset model).
Proof.
  unfold cell_visualize.
  unfold Dataset_take, list_dataset, model_predict, tf_math_argmax.
  apply (Phased_bind [Inference] [Inference; Plotting]);
    [now apply Phased_lib | intros data | reflexivity].
  apply (Phased_bind [Inference] [Inference; Plotting]);
    [now apply Phased_lib | intros batches | reflexivity].
  apply (Phased_bind [] [Inference; Plotting]);
    [apply Phased_getitem | intros first | reflexivity].
  apply (Phased_bind [Inference] [Inference; Plotting]);
    [now apply Phased_lib | intros preds | reflexivity].
  apply (Phased_bind [Inference] [Plotting]);
    [now apply Phased_lib | intros classes | reflexivity].
  unfold plt_figure. apply Phased_absorb; [now apply Phased_lib |].
  intros _. emits stage_side.
Qed.

Lemma Phased_after_parse (train_points test_points : list matrix)
    (train_labels test_labels : list nat) (CLASS_MAP : nat) :
  Phased [TensorDataset; ModelDefinition; CompileFit; Inference; Plotting]
         (after_parse w train_points test_points train_labels test_labels CLASS_MAP).
Proof.
  unfold after_parse.
  apply (Phased_bind [TensorDataset] [ModelDefinition; CompileFit; Inference; Plotting]);
    [apply Phased_cell_datasets | intros datasets | reflexivity].
  apply (Phased_bind [ModelDefinition] [CompileFit; Inference; Plotting]);
    [apply Phased_cell_model | intros model | reflexivity].
  apply (Phased_bind [CompileFit] [Inference; Plotting]);
    [apply Phased_cell_train | intros _ | reflexivity].
  apply Phased_cell_visualize.
Qed.

Lemma Phased_pipeline (DATA_DIR : string) :
  Phased [MeshSampling; TensorDataset; ModelDefinition; CompileFit; Inference; Plotting]
         (pipeline w DATA_DIR).
Proof.
  unfold pipeline.
  apply (Phased_bind [MeshSampling]
           [TensorDataset; ModelDefinition; CompileFit; Inference; Plotting]);
    [apply Phased_parse_dataset | | reflexivity].
  intros [[[[train_points test_points] train_labels] test_labels] CLASS_MAP].
  apply Phased_after_parse.
Qed.

Lemma Phased_before_preview : Phased [Fetch] (cell_setup w;; cell_fetch w).
Proof.
  apply (Phased_bind [] [Fetch]); [apply Phased_cell_setup | | reflexivity].
  intros _. apply Phased_cell_fetch.
Qed.

(** *** Configuration values *)

Lemma Emits_config_parse_dataset (DATA_DIR : string) :
  Emits config_ok (parse_dataset w DATA_DIR NUM_POINTS).
Proof. unfold parse_dataset. emits stage_side. Qed.

Lemma Emits_config_conv_bn (x : node) (filters : nat) :
  Emits config_ok (conv_bn w x filters).
Proof. unfold conv_bn. emits stage_side. Qed.

Lemma Emits_config_dense_bn (x : node) (filters : nat) :
  Emits config_ok (dense_bn w x filters).
Proof. unfold dense_bn. emits stage_side. Qed.

#[local] Hint Resolve Emits_config_parse_dataset Emits_config_conv_bn
  Emits_config_dense_bn : notebook_emits.

Lemma Emits_config_tnet (x : node) (n : nat) : Emits config_ok (tnet w x n).
Proof. unfold tnet. emits stage_side. Qed.

#[local] Hint Resolve Emits_config_tnet : notebook_emits.

Lemma Emits_config_cell_model : Emits config_ok (cell_model w).
Proof. unfold cell_model. emits stage_side. Qed.

Lemma Emits_config_cell_visualize (CLASS_MAP : nat) (test_dataset : dataset)
    (model : node) :
  Emits config_ok (cell_visualize w CLASS_MAP test_dataset model).
Proof. unfold cell_visualize. emits stage_side. Qed.

#[local] Hint Resolve Emits_config_cell_model Emits_config_cell_visualize
  : notebook_emits.

Lemma Emits_config_notebook : Emits config_ok (notebook w).
Proof.
  unfold notebook, pipeline, after_parse, cell_setup, cell_fetch, cell_preview,
    cell_datasets, cell_train.
  emits stage_side.
Qed.

(** *** Dictionaries *)

Lemma HeapFrame_conv_bn (x : node) (filters : nat) : HeapFrame (conv_bn w x filters).
Proof. unfold conv_bn. frame. Qed.

Lemma HeapFrame_dense_bn (x : node) (filters : nat) : HeapFrame (dense_bn w x filters).
Proof. unfold dense_bn. frame. Qed.

#[local] Hint Resolve HeapFrame_conv_bn HeapFrame_dense_bn : notebook_frame.

Lemma HeapFrame_tnet (x : node) (n : nat) : HeapFrame (tnet w x n).
Proof. unfold tnet. frame. Qed.

#[local] Hint Resolve HeapFrame_tnet : notebook_frame.

Lemma HeapFrame_cell_model : HeapFrame (cell_model w).
Proof. unfold cell_model. frame. Qed.

Lemma HeapFrame_cell_visualize (CLASS_MAP : nat) (test_dataset : dataset)
    (model : node) :
  HeapFrame (cell_visualize w CLASS_MAP test_dataset model).
Proof. unfold cell_visualize. frame. Qed.

#[local] Hint Resolve HeapFrame_cell_model HeapFrame_cell_visualize : notebook_frame.

Lemma HeapFrame_after_parse (train_points test_points : list matrix)
    (train_labels test_labels : list nat) (CLASS_MAP : nat) :
  HeapFrame (after_parse w train_points test_points train_labels test_labels CLASS_MAP).
Proof. unfold after_parse, cell_datasets, cell_train. frame. Qed.

Lemma HeapFrame_before_parse :
  HeapFrame (cell_setup w;; DATA_DIR ← cell_fetch w; cell_preview w DATA_DIR;; mret DATA_DIR).
Proof. unfold cell_setup, cell_fetch, cell_preview. frame. Qed.

Lemma HeapFrame_augment (points : matrix) (label : nat) :
  HeapFrame (augment w points label).
Proof. unfold augment. frame. Qed.

End Functions.

(** ** Calls made by a normal run *)

Section CallsMade.
Context (w : World).

Lemma Calls_lib {A} (c : call) (v : nat -> A) : Calls c (lib w c v).
Proof.
  intros s a. unfold lib. destruct (raises w (clock s) c); simpl; [discriminate |].
  intros _. now left.
Qed.

Lemma Calls_throw {A} (c c' : call) (e : exc) : Calls c (throw c' e : M A).
Proof. intros s a. discriminate. Qed.

Lemma Calls_bind_l {A B} (c : call) (m : M A) (f : A -> M B) :
  Calls c m -> Calls c (m ≫= f).
Proof.
  intros Hm s b Hb. destruct (bind_success _ _ _ _ Hb) as (a & Ha & _).
  rewrite (bind_run_success _ _ _ _ Ha). simpl. apply in_or_app. left. exact (Hm s a Ha).
Qed.

Lemma Calls_bind_r {A B} (c : call) (m : M A) (f : A -> M B) :
  (forall a, Calls c (f a)) -> Calls c (m ≫= f).
Proof.
  intros Hf s b Hb. destruct (bind_success _ _ _ _ Hb) as (a & Ha & Hfa).
  rewrite (bind_run_success _ _ _ _ Ha). simpl. apply in_or_app. right. exact (Hf a _ b Hfa).
Qed.

End CallsMade.

Ltac calls :=
  lazymatch goal with
  | |- Calls ?c (lib _ ?c _) => apply Calls_lib
  | |- Calls _ (throw _ _) => apply Calls_throw
  | |- Calls _ (_ ≫= _) =>
    first [ apply Calls_bind_l; solve [calls] | apply Calls_bind_r; intros ?; calls ]
  | |- Calls _ (match ?x with _ => _ end) => destruct x; calls
  end.

Section NotebookCalls.
Context (w : World).

Lemma Calls_cell_model_Input : Calls (Call_Input [2048; 3]) (cell_model w).
Proof. unfold cell_model, keras_Input, NUM_POINTS. calls. Qed.

Lemma Calls_cell_model_Dense :
  Calls (Call_layer (Dense 10 (Some "softmax") glorot_uniform zeros None)) (cell_model w).
Proof.
  unfold cell_model. do 13 (apply Calls_bind_r; intros ?).
  apply Calls_bind_l. unfold apply_layer, NUM_CLASSES. calls.
Qed.

Lemma Calls_notebook (c : call) :
  In c [Call_sample 2048; Call_Input [2048; 3]; Call_batch 32;
        Call_layer (Dense 10 (Some "softmax") glorot_uniform zeros None);
        Call_Adam (Q2Qc (1 # 1000)); Call_fit 20] ->
  Calls c (notebook w).
Proof.
  intros Hc. unfold notebook. apply Calls_bind_r. intros _.
  apply Calls_bind_r. intros DATA_DIR.
  simpl in Hc. destruct Hc as [<- | Hc].
  { apply Calls_bind_l. unfold cell_preview, trimesh_load, mesh_show, mesh_sample.
    calls. }
  apply Calls_bind_r. intros _. unfold pipeline. apply Calls_bind_r.
  intros [[[[train_points test_points] train_labels] test_labels] CLASS_MAP].
  unfold after_parse.
  destruct Hc as [<- | [<- | [<- | [<- | [<- | []]]]]].
  - apply Calls_bind_r. intros ?. apply Calls_bind_l. apply Calls_cell_model_Input.
  - apply Calls_bind_l.
    unfold cell_datasets, Dataset_from_tensor_slices, Dataset_shuffle,
      Dataset_map_augment, Dataset_batch, BATCH_SIZE. calls.
  - apply Calls_bind_r. intros ?. apply Calls_bind_l. apply Calls_cell_model_Dense.
  - do 2 (apply Calls_bind_r; intros ?). apply Calls_bind_l.
    unfold cell_train, Adam, model_compile, model_fit. calls.
  - do 2 (apply Calls_bind_r; intros ?). apply Calls_bind_l.
    unfold cell_train, Adam, model_compile, model_fit. calls.
Qed.

End NotebookCalls.

(** ** Exceptions *)

Lemma raised_is_outcome {A} (r : result A) (c : call) (e : exc) :
  propagated r -> In (Raised c e) (emitted r) ->
  outcome r = inl e /\ exists t, emitted r = t ++ [Raised c e].
Proof.
  unfold propagated. intros Hr Hin. destruct (outcome r) as [e' | a].
  - destruct Hr as (t & c' & Het & Ht). rewrite Het in Hin.
    apply in_app_or in Hin as [Hin | [Heq | []]].
    + rewrite Forall_forall in Ht. destruct (Ht _ (proj2 (list_elem_of_In _ _) Hin)).
    + injection Heq as -> ->. split; [reflexivity | now exists t].
  - rewrite Forall_forall in Hr. destruct (Hr _ (proj2 (list_elem_of_In _ _) Hin)).
Qed.

(** A handler would break propagation: the property is not one that every
    computation has. *)
Lemma try_except_recovers :
  ~ Propagates (try_except (throw Call_getitem IndexError) (fun _ => mret tt)).
Proof.
  intros H. specialize (H s0). unfold propagated in H. simpl in H.
  apply Forall_inv in H. exact H.
Qed.

(** A mesh file that cannot be read ends the run inside [parse_dataset]. *)
Lemma notebook_missing_file :
  outcome (notebook missing_file_world s0) = inl (OSError "No such file or directory") /\
  List.last (emitted (notebook missing_file_world s0)) (Called Call_show)
    = Raised (Call_trimesh_load "/root/.keras/datasets/ModelNet10/sofa/train/sofa_0001.off")
             (OSError "No such file or directory") /\
  stages (emitted (notebook missing_file_world s0)) =
    [Fetch; MeshSampling; Plotting; MeshSampling; Plotting; Plotting; Plotting;
     Plotting; Plotting; MeshSampling; MeshSampling; MeshSampling; MeshSampling;
     MeshSampling; MeshSampling; MeshSampling; MeshSampling; MeshSampling;
     MeshSampling].
Proof. repeat split; vm_compute; reflexivity. Qed.

(** C6: nothing authored in the notebook catches an exception.  In every
    environment and from every state, a run of the notebook, of
    [parse_dataset] and of [augment] either ends normally with no exception
    raised at all, or ends with an exception that is the outcome of the run
    and the last entry of its trace: it was raised by a call, nothing
    handled or retried it, and nothing ran after it. *)
Theorem C6_exceptions_propagate (w : World) (s : state) :
  propagated (notebook w s) /\
  (forall DATA_DIR num_points, propagated (parse_dataset w DATA_DIR num_points s)) /\
  (forall points label, propagated (augment w points label s)).
Proof.
  split; [apply Propagates_notebook |]. split.
  - intros DATA_DIR num_points. apply Propagates_parse_dataset.
  - intros points label. apply Propagates_augment.
Qed.

(** ** Configuration *)

(** C5: the configuration values are constants of the notebook: in every
    environment, every call that consumes one of them gets 2048 points, 10
    classes, batches of 32, learning rate 0.001 and 20 epochs, and a normal
    run makes each of these calls. *)
Theorem C5_configuration (w : World) (s : state) :
  (NUM_POINTS, NUM_CLASSES, BATCH_SIZE) = (2048, 10, 32) /\
  Forall config_ok (emitted (notebook w s)) /\
  (forall a, outcome (notebook w s) = inr a ->
     Forall (fun c => In (Called c) (emitted (notebook w s)))
       [Call_sample 2048; Call_Input [2048; 3]; Call_batch 32;
        Call_layer (Dense 10 (Some "softmax") glorot_uniform zeros None);
        Call_Adam (Q2Qc (1 # 1000)); Call_fit 20]).
Proof.
  split; [reflexivity |]. split; [apply Emits_config_notebook |].
  intros a Ha. apply Forall_forall. intros c Hc.
  apply list_elem_of_In in Hc. exact (Calls_notebook w c Hc s a Ha).
Qed.

(** ** Order of the stages *)

Lemma bind_assoc_run {A B C} (m : M A) (f : A -> M B) (g : B -> M C) (s : state) :
  ((m ≫= f) ≫= g) s = (m ≫= (fun a => f a ≫= g)) s.
Proof.
  rewrite !bind_run. destruct (outcome (m s)) as [e | a] eqn:Hm; simpl; [reflexivity |].
  rewrite !bind_run. destruct (outcome (f a (final (m s)))); simpl; [reflexivity |].
  now rewrite app_assoc.
Qed.

(** C7 as stated fails: in a run in which every call succeeds, the preview
    cells plot a sampled mesh ([plt.show()] is entry 10 of the trace) before
    [parse_dataset] starts (its first [glob] is entry 11, its first [sample]
    entry 16), so the mesh-sampling stage is entered again after plotting
    has started. *)
Lemma C7_preview_plots_before_sampling :
  outcome (notebook sunny_world s0) = inr tt /\
  emitted (notebook sunny_world s0) !! 10 = Some (Called Call_plt_show) /\
  emitted (notebook sunny_world s0) !! 11
    = Some (Called (Call_glob "/root/.keras/datasets/ModelNet10/[!README]*")) /\
  emitted (notebook sunny_world s0) !! 16 = Some (Called (Call_sample 2048)) /\
  ~ in_order (stages (emitted (notebook sunny_world s0))).
Proof.
  split; [vm_compute; reflexivity |].
  split; [vm_compute; reflexivity |].
  split; [vm_compute; reflexivity |].
  split; [vm_compute; reflexivity |].
  unfold in_order. intros H.
  set (l := stages (emitted (notebook sunny_world s0))) in *.
  assert (take 10 l = [Fetch; MeshSampling; Plotting; MeshSampling; Plotting; Plotting;
                       Plotting; Plotting; Plotting; MeshSampling]) as Hl
    by (vm_compute; reflexivity).
  assert (take 10 l `prefix_of` l) as Hpre by (exists (drop 10 l); now rewrite take_drop).
  apply (Sorted_prefix _ _ _ Hpre) in H. rewrite Hl in H.
  do 8 (apply Sorted_inv in H as [H _]).
  apply Sorted_inv in H as [_ H]. apply HdRel_inv in H. simpl in H. lia.
Qed.

(** C7 (amended): in every run, the trace is [pre ++ view ++ post], where
    [view] is what the preview cells did (load one mesh, show it, sample
    2048 points, plot them) and the rest goes through the stages in order:
    fetch, mesh sampling, tensor datasets, model definition, compile and
    fit, inference, plotting.  No stage is entered again after a later one
    started, also in a run that raises; a normal run goes through all seven. *)
Theorem C7_stages_in_order (w : World) (s : state) :
  exists pre view post,
    emitted (notebook w s) = pre ++ view ++ post /\
    (view = [] \/ exists DATA_DIR s', view = emitted (cell_preview w DATA_DIR s')) /\
    in_order (stages (pre ++ post)) /\
    (forall a, outcome (notebook w s) = inr a ->
       phases (stages (pre ++ post)) = all_stages).
Proof.
  assert (notebook w s =
          ((cell_setup w;; cell_fetch w) ≫=
             (fun DATA_DIR => cell_preview w DATA_DIR;; pipeline w DATA_DIR)) s) as ->.
  { unfold notebook. now rewrite bind_assoc_run. }
  pose proof (Phased_before_preview w s) as Hpre.
  rewrite bind_run.
  destruct (outcome ((cell_setup w;; cell_fetch w) s)) as [e | DATA_DIR]; simpl.
  { exists (emitted ((cell_setup w;; cell_fetch w) s)), [], [].
    rewrite !app_nil_r. split; [reflexivity |]. split; [now left |]. split.
    - apply in_order_of_prefix. etrans; [exact Hpre |]. now eexists.
    - discriminate. }
  set (s2 := final ((cell_setup w;; cell_fetch w) s)) in *.
  set (pre := emitted ((cell_setup w;; cell_fetch w) s)) in *.
  rewrite bind_run.
  destruct (outcome (cell_preview w DATA_DIR s2)) as [e | []]; simpl.
  { exists pre, (emitted (cell_preview w DATA_DIR s2)), [].
    rewrite !app_nil_r. split; [reflexivity |]. split; [right; eauto |]. split.
    - apply in_order_of_prefix. rewrite Hpre. now eexists.
    - discriminate. }
  set (s3 := final (cell_preview w DATA_DIR s2)).
  pose proof (Phased_pipeline w DATA_DIR s3) as Hpost.
  exists pre, (emitted (cell_preview w DATA_DIR s2)), (emitted (pipeline w DATA_DIR s3)).
  split; [reflexivity |]. split; [right; eauto |].
  rewrite stages_app.
  destruct (outcome (pipeline w DATA_DIR s3)) as [e | a'].
  - split; [| discriminate]. apply in_order_of_prefix.
    exact (phases_concat_prefix _ _ [Fetch] _ Hpre Hpost).
  - assert (phases (stages pre ++ stages (emitted (pipeline w DATA_DIR s3))) = all_stages)
      as Hall by exact (phases_concat_eq _ _ [Fetch] _ Hpre Hpost).
    split; [| intros ? _; exact Hall].
    apply in_order_of_prefix. rewrite Hall. now exists [].
Qed.

(** ** Normal runs, step by step *)

Section Success.
Context (w : World).

Lemma lib_success {A} (c : call) (v : nat -> A) (s : state) (a : A) :
  outcome (lib w c v s) = inr a -> a = v (clock s) /\ final (lib w c v s) = tick s.
Proof.
  unfold lib. destruct (raises w (clock s) c); simpl; [discriminate |].
  intros [= <-]. now split.
Qed.

Lemma bind_final_success {A B} (m : M A) (f : A -> M B) (s : state) (a : A) :
  outcome (m s) = inr a -> final ((m ≫= f) s) = final (f a (final (m s))).
Proof. intros H. now rewrite (bind_run_success _ _ _ _ H). Qed.

Lemma mesh_sample_success (mesh : geometry) (count : nat) (s : state) (pts : matrix) :
  outcome (mesh_sample w mesh count s) = inr pts ->
  exists src, mesh = Trimesh src /\ pts = sample_result w (clock s) src count.
Proof.
  destruct mesh as [src | src]; simpl; [| discriminate].
  intros H. apply lib_success in H as [-> _]. now exists src.
Qed.

(** A loop that ends normally establishes, for the whole list, what each
    normal iteration extends by one element. *)
Lemma for_each_fold {A B} (J : list A -> state -> B -> Prop)
    (l done : list A) (body : A -> B -> M B) (acc b : B) (s : state) :
  J done s acc ->
  (forall done x acc s b', x ∈ l -> J done s acc -> outcome (body x acc s) = inr b' ->
     J (done ++ [x]) (final (body x acc s)) b') ->
  outcome (for_each l body acc s) = inr b ->
  J (done ++ l) (final (for_each l body acc s)) b.
Proof.
  revert done acc s. induction l as [| x l IH]; intros done acc s HJ Hstep Hrun.
  - simpl in *. injection Hrun as <-. now rewrite app_nil_r.
  - simpl in Hrun. destruct (bind_success _ _ _ _ Hrun) as (b' & Hx & Hrest).
    simpl. rewrite (bind_final_success _ _ _ _ Hx).
    replace (done ++ x :: l) with ((done ++ [x]) ++ l) by now rewrite <- app_assoc.
    apply IH; [| | exact Hrest].
    + apply Hstep; [left | assumption | assumption].
    + intros done' y acc' s' b'' Hy. apply Hstep. now right.
Qed.

Lemma for_each_success_inv {A B} (I : B -> Prop) (l : list A) (body : A -> B -> M B)
    (acc b : B) (s : state) :
  I acc ->
  (forall x acc s b', x ∈ l -> I acc -> outcome (body x acc s) = inr b' -> I b') ->
  outcome (for_each l body acc s) = inr b -> I b.
Proof.
  intros Hacc Hstep Hrun.
  apply (for_each_fold (fun _ _ b => I b) l [] body acc b s); eauto.
Qed.

(** *** parse_dataset: clouds and labels *)

Lemma sample_file_success (f : string) (num_points : nat) (s : state) (pts : matrix) :
  outcome ((mesh ← trimesh_load w f; mesh_sample w mesh num_points) s) = inr pts ->
  exists src t2 t3, load_result w t2 f = Trimesh src /\
                    pts = sample_result w t3 src num_points.
Proof.
  intros H. apply bind_success in H as (mesh & Hload & Hsample).
  apply lib_success in Hload as [-> _].
  apply mesh_sample_success in Hsample as (src & Hmesh & ->). eauto.
Qed.

Lemma parse_dataset_labelled (DATA_DIR : string) (num_points : nat) (s : state)
    (train_points test_points : list matrix) (train_labels test_labels : list nat)
    (class_map : nat) :
  outcome (parse_dataset w DATA_DIR num_points s)
    = inr (train_points, test_points, train_labels, test_labels, class_map) ->
  let folders := glob_result w (clock s) (os_path_join DATA_DIR "[!README]*") in
  Forall2 (sampled_from w folders num_points "train/*") train_points train_labels /\
  Forall2 (sampled_from w folders num_points "test/*") test_points test_labels.
Proof.
  intros Hrun folders. unfold parse_dataset in Hrun.
  apply bind_success in Hrun as (loc & _ & Hrun). simpl in Hrun.
  apply bind_success in Hrun as (fs & Hglob & Hrun).
  apply lib_success in Hglob as [Hfs _]. simpl in Hfs. fold folders in Hfs. subst fs.
  apply bind_success in Hrun as ([[[tp tl] ep] el] & Hloop & Hret).
  simpl in Hret. injection Hret as <- <- <- <- _.
  revert Hloop.
  apply (for_each_success_inv (labelled w folders num_points)).
  { split; constructor. }
  clear tp tl ep el. intros [i folder] acc s1 acc' Hin Hacc Hbody.
  apply elem_of_lookup_imap in Hin as (i' & folder' & [= -> ->] & Hfolder).
  apply bind_success in Hbody as (_ & _ & Hbody).
  apply bind_success in Hbody as (_ & _ & Hbody).
  apply bind_success in Hbody as (train_files & Htrain & Hbody).
  apply lib_success in Htrain as [-> _].
  apply bind_success in Hbody as (test_files & Htest & Hbody).
  apply lib_success in Htest as [-> _].
  apply bind_success in Hbody as (acc1 & Hloop1 & Hloop2).
  assert (labelled w folders num_points acc1) as Hacc1.
  { revert Hloop1. apply (for_each_success_inv (labelled w folders num_points));
      [exact Hacc |].
    intros f [[[tp tl] ep] el] s2 b' Hf [Htr Hte] Hstep.
    apply bind_success in Hstep as (mesh & Hload & Hstep).
    apply bind_success in Hstep as (pts & Hsample & Hret).
    injection Hret as <-. unfold labelled in *. simpl in *.
    apply lib_success in Hload as [-> _].
    apply mesh_sample_success in Hsample as (src & Hmesh & ->).
    split; [| exact Hte]. apply Forall2_app; [exact Htr |].
    repeat constructor. unfold sampled_from. eauto 10. }
  revert Hloop2. apply (for_each_success_inv (labelled w folders num_points));
    [exact Hacc1 |].
  intros f [[[tp tl] ep] el] s2 b' Hf [Htr Hte] Hstep.
  apply bind_success in Hstep as (mesh & Hload & Hstep).
  apply bind_success in Hstep as (pts & Hsample & Hret).
  injection Hret as <-. unfold labelled in *. simpl in *.
  apply lib_success in Hload as [-> _].
  apply mesh_sample_success in Hsample as (src & Hmesh & ->).
  split; [exact Htr |]. apply Forall2_app; [exact Hte |].
  repeat constructor. unfold sampled_from. eauto 10.
Qed.

End Success.

(** ** Point clouds and labels *)

Lemma has_shape_unit_cloud (count : nat) : has_shape count 3 (unit_cloud count).
Proof.
  unfold has_shape, unit_cloud. split; [apply repeat_length |].
  apply Forall_forall. intros r Hr. apply list_elem_of_In, repeat_spec in Hr. now subst.
Qed.

Lemma sampled_from_shape (w : World) (folders : list string) (n : nat) (sub : string)
    (clouds : list matrix) (labels : list nat) :
  sample_contract w -> Forall2 (sampled_from w folders n sub) clouds labels ->
  Forall (has_shape n 3) clouds.
Proof.
  intros Hw. induction 1 as [| cloud label clouds labels Hc _ IH]; constructor;
    [| exact IH].
  destruct Hc as (folder & f & src & t1 & t2 & t3 & _ & _ & _ & ->). apply Hw.
Qed.

Lemma sample_contract_single_mesh (n : nat) (cloud : matrix) :
  has_shape n 3 cloud -> sample_contract (single_mesh_world n cloud).
Proof.
  intros Hc t src count. simpl. destruct (decide (count = n)) as [-> |];
    [exact Hc | apply has_shape_unit_cloud].
Qed.

Lemma parse_dataset_single_mesh (n : nat) (cloud : matrix) :
  outcome (parse_dataset (single_mesh_world n cloud) "d" n s0)
    = inr ([cloud], [], [0], [], 0).
Proof.
  transitivity (inr (A := exc)
    ([sample_result (single_mesh_world n cloud) 5 "d/c/train/m.off" n],
     @nil matrix, [0], @nil nat, 0)); [reflexivity |].
  simpl. now rewrite decide_True.
Qed.

(** C2: in every normal run of [parse_dataset], with any sampler that keeps
    trimesh's contract, every cloud of [train_points] and of [test_points]
    has exactly [num_points] points of exactly 3 coordinates; and nothing
    else is imposed: every array of that shape is the cloud some normal run
    returns. *)
Theorem C2_point_cloud_shape (w : World) (DATA_DIR : string) (num_points : nat)
    (s : state) (train_points test_points : list matrix)
    (train_labels test_labels : list nat) (class_map : nat)
    (Hsample : sample_contract w)
    (Hrun : outcome (parse_dataset w DATA_DIR num_points s)
            = inr (train_points, test_points, train_labels, test_labels, class_map)) :
  Forall (has_shape num_points 3) train_points /\
  Forall (has_shape num_points 3) test_points /\
  (forall cloud, has_shape num_points 3 cloud ->
     sample_contract (single_mesh_world num_points cloud) /\
     outcome (parse_dataset (single_mesh_world num_points cloud) "d" num_points s0)
       = inr ([cloud], [], [0], [], 0)).
Proof.
  destruct (parse_dataset_labelled w _ _ _ _ _ _ _ _ Hrun) as [Htrain Htest].
  split; [exact (sampled_from_shape _ _ _ _ _ _ Hsample Htrain) |].
  split; [exact (sampled_from_shape _ _ _ _ _ _ Hsample Htest) |].
  intros cloud Hcloud.
  split; [now apply sample_contract_single_mesh | apply parse_dataset_single_mesh].
Qed.

Lemma C2_point_cloud_shape_witness :
  Forall (has_shape 2 3) [unit_cloud 2; unit_cloud 2] /\
  Forall (has_shape 2 3) [unit_cloud 2; unit_cloud 2] /\
  (forall cloud, has_shape 2 3 cloud ->
     sample_contract (single_mesh_world 2 cloud) /\
     outcome (parse_dataset (single_mesh_world 2 cloud) "d" 2 s0)
       = inr ([cloud], [], [0], [], 0)).
Proof.
  apply (C2_point_cloud_shape sunny_world "/root/.keras/datasets/ModelNet10" 2 s0
           [unit_cloud 2; unit_cloud 2] [unit_cloud 2; unit_cloud 2] [0; 1] [0; 1] 0).
  - intros t src count. apply has_shape_unit_cloud.
  - vm_compute. reflexivity.
Defined.

(** C3: in every normal run of [parse_dataset], the labels are paired one
    to one with the clouds, and the label of a cloud is the [enumerate]
    index of the class folder in which the mesh file it was sampled from
    was matched. *)
Theorem C3_labels_are_folder_indices (w : World) (DATA_DIR : string) (num_points : nat)
    (s : state) (train_points test_points : list matrix)
    (train_labels test_labels : list nat) (class_map : nat)
    (Hrun : outcome (parse_dataset w DATA_DIR num_points s)
            = inr (train_points, test_points, train_labels, test_labels, class_map)) :
  let folders := glob_result w (clock s) (os_path_join DATA_DIR "[!README]*") in
  Forall2 (sampled_from w folders num_points "train/*") train_points train_labels /\
  Forall2 (sampled_from w folders num_points "test/*") test_points test_labels.
Proof. exact (parse_dataset_labelled w _ _ _ _ _ _ _ _ Hrun). Qed.

Lemma C3_labels_are_folder_indices_witness :
  let folders := ["/root/.keras/datasets/ModelNet10/chair";
                  "/root/.keras/datasets/ModelNet10/sofa"] in
  Forall2 (sampled_from sunny_world folders 2 "train/*")
          [unit_cloud 2; unit_cloud 2] [0; 1] /\
  Forall2 (sampled_from sunny_world folders 2 "test/*")
          [unit_cloud 2; unit_cloud 2] [0; 1].
Proof.
  apply (C3_labels_are_folder_indices sunny_world "/root/.keras/datasets/ModelNet10" 2 s0
           [unit_cloud 2; unit_cloud 2] [unit_cloud 2; unit_cloud 2] [0; 1] [0; 1] 0).
  vm_compute. reflexivity.
Defined.

(** ** The class map *)

Lemma dict_of_snoc (done : list (nat * string)) (i : nat) (folder : string) :
  dict_of (done ++ [(i, folder)])
  = <[i := getitem_last (str_split slash folder)]> (dict_of done).
Proof. unfold dict_of. now rewrite foldl_app. Qed.

Lemma dict_of_enumerate (folders : list string) (i : nat) :
  dict_of (enumerate folders) !! i = os_path_basename <$> folders !! i.
Proof.
  unfold enumerate. induction folders as [| x l IH] using rev_ind; [reflexivity |].
  rewrite imap_app. simpl. rewrite Nat.add_0_r, dict_of_snoc.
  destruct (decide (i = length l)) as [-> | Hne].
  - rewrite lookup_insert_eq, list_lookup_middle by reflexivity.
    simpl. now rewrite split_last_basename.
  - rewrite lookup_insert_ne, IH by congruence.
    destruct (decide (i < length l)) as [Hlt | Hge].
    + now rewrite lookup_app_l.
    + rewrite !lookup_ge_None_2; [reflexivity | | lia].
      rewrite length_app. simpl. lia.
Qed.

Section ClassMap.
Context (w : World).

Lemma parse_dataset_heap (DATA_DIR : string) (num_points : nat) (s : state)
    (train_points test_points : list matrix) (train_labels test_labels : list nat)
    (class_map : nat) :
  outcome (parse_dataset w DATA_DIR num_points s)
    = inr (train_points, test_points, train_labels, test_labels, class_map) ->
  heap s !! class_map = None /\
  heap (final (parse_dataset w DATA_DIR num_points s))
    = <[class_map :=
          dict_of (enumerate (glob_result w (clock s)
                                (os_path_join DATA_DIR "[!README]*")))]> (heap s).
Proof.
  intros Hrun. unfold parse_dataset, glob_glob, print in *.
  rename Hrun into Hrun'.
  apply bind_success in Hrun' as (loc & Hnew & Hrun').
  rewrite (bind_final_success _ _ _ _ Hnew).
  injection Hnew as <-. simpl in Hrun'. simpl (final (dict_new s)).
  set (loc := fresh (dom (heap s))) in *.
  set (s1 := mkState (clock s) (<[loc := ∅]> (heap s))) in *.
  rename Hrun' into Hrun''.
  apply bind_success in Hrun'' as (fs & Hglob & Hrun'').
  rewrite (bind_final_success _ _ _ _ Hglob).
  apply lib_success in Hglob as [-> Hs2]. rewrite Hs2 in *. simpl (clock s1) in *.
  set (folders := glob_result w (clock s) (os_path_join DATA_DIR "[!README]*")) in *.
  apply bind_success in Hrun'' as ([[[tp tl] ep] el] & Hloop & Hret).
  rewrite (bind_final_success _ _ _ _ Hloop).
  simpl in Hret. injection Hret as _ _ _ _ <-. simpl.
  split; [apply not_elem_of_dom, is_fresh |].
  revert Hloop.
  apply (for_each_fold (fun done s' _ => heap s' = <[loc := dict_of done]> (heap s))
           (enumerate folders) []); [reflexivity |].
  intros done [i folder] acc s' b' _ Hheap Hbody.
  apply bind_success in Hbody as ([] & Hprint & Hbody).
  rewrite (bind_final_success _ _ _ _ Hprint).
  apply lib_success in Hprint as [_ Hs']. rewrite Hs' in *. clear Hs'.
  apply bind_success in Hbody as ([] & Hset & Hbody).
  rewrite (bind_final_success _ _ _ _ Hset). simpl (final (dict_setitem _ _ _ _)).
  match goal with
  | |- heap (final (?rest ?st)) = _ =>
    assert (HeapFrame rest) as Hframe by (unfold HeapFrame; fold (HeapFrame rest); frame)
  end.
  rewrite Hframe. simpl. rewrite Hheap, alter_insert_eq, dict_of_snoc. reflexivity.
Qed.

End ClassMap.

(** C4: the class map is the dictionary [parse_dataset] creates: it does
    not exist before, and when [parse_dataset] returns it maps every index
    [i] to the base name of the [i]-th matched folder (and nothing else);
    the cells before [parse_dataset] and everything that runs after it leave
    every dictionary exactly as it was, in every environment, whether they
    end normally or raise: the later accesses only read. *)
Theorem C4_class_map (w : World) (DATA_DIR : string) (num_points : nat) (s : state)
    (train_points test_points : list matrix) (train_labels test_labels : list nat)
    (CLASS_MAP : nat)
    (Hrun : outcome (parse_dataset w DATA_DIR num_points s)
            = inr (train_points, test_points, train_labels, test_labels, CLASS_MAP)) :
  let folders := glob_result w (clock s) (os_path_join DATA_DIR "[!README]*") in
  heap s !! CLASS_MAP = None /\
  (exists d,
     heap (final (parse_dataset w DATA_DIR num_points s)) = <[CLASS_MAP := d]> (heap s) /\
     forall i, d !! i = os_path_basename <$> folders !! i) /\
  (forall s', heap (final (after_parse w train_points test_points train_labels
                                       test_labels CLASS_MAP s')) = heap s') /\
  (forall s', heap (final ((cell_setup w;; D ← cell_fetch w; cell_preview w D;; mret D) s'))
              = heap s').
Proof.
  intros folders. destruct (parse_dataset_heap w _ _ _ _ _ _ _ _ Hrun) as [Hfresh Hheap].
  split; [exact Hfresh |]. split.
  - eexists. split; [exact Hheap |]. intros i. apply dict_of_enumerate.
  - split; [apply HeapFrame_after_parse | apply HeapFrame_before_parse].
Qed.

Lemma C4_class_map_witness :
  exists d : gmap nat string,
    heap (final (parse_dataset sunny_world "/root/.keras/datasets/ModelNet10" 2 s0))
      = <[0 := d]> ∅ /\
    d !! 0 = Some "chair" /\ d !! 1 = Some "sofa" /\ d !! 2 = None.
Proof.
  destruct (C4_class_map sunny_world "/root/.keras/datasets/ModelNet10" 2 s0
              [unit_cloud 2; unit_cloud 2] [unit_cloud 2; unit_cloud 2] [0; 1] [0; 1] 0)
    as (_ & (d & Hheap & Hd) & _).
  { vm_compute. reflexivity. }
  exists d. split; [exact Hheap |]. rewrite !Hd. repeat split.
Defined.

(** ** augment *)

Lemma in_jitter_range_abs (v : Qc) : in_jitter_range v -> (Qcabs v <= jitter_max)%Qc.
Proof.
  intros [Hlo Hhi]. apply Qcabs_Qcle_condition. split.
  - exact Hlo.
  - now apply Qclt_le_weak.
Qed.

Lemma length_mat_add_row (a b : list Qc) :
  length b = length a -> length (zip_with Qcplus a b) = length a.
Proof. intros H. rewrite length_zip_with. lia. Qed.

Lemma augment_success (w : World) (points : matrix) (label : nat) (s : state)
    (out : matrix) (lbl : nat) :
  outcome (augment w points label s) = inr (out, lbl) ->
  exists t t',
    lbl = label /\
    out = shuffle_result w t'
            (mat_add points (uniform_result w t (mat_shape points) jitter_min jitter_max)).
Proof.
  intros H. unfold augment in H.
  apply bind_success in H as (noise & Hnoise & H). apply lib_success in Hnoise as [-> _].
  apply bind_success in H as (sum & Hsum & H). apply lib_success in Hsum as [-> _].
  apply bind_success in H as (shuffled & Hsh & H). apply lib_success in Hsh as [-> _].
  injection H as <- <-. eauto.
Qed.

Lemma jitter_range_nonempty : (jitter_min < jitter_max)%Qc.
Proof. reflexivity. Qed.

Lemma uniform_noise_fits (w : World) (points : matrix) (t : nat) :
  uniform_contract w -> rectangular points ->
  Forall2 (Forall2 (fun _ v => in_jitter_range v)) points
          (uniform_result w t (mat_shape points) jitter_min jitter_max).
Proof.
  intros Hw Hrect. unfold mat_shape in *.
  destruct (Hw t (length points) (match points with r :: _ => length r | [] => 0 end)
              jitter_min jitter_max jitter_range_nonempty) as [Hlen Hrows].
  apply Forall2_same_length_lookup_2; [now rewrite Hlen |].
  intros i r noise_row Hr Hn.
  apply (Forall_lookup_1 _ _ _ _ Hrect) in Hr. simpl in Hr.
  apply (Forall_lookup_1 _ _ _ _ Hrows) in Hn as [Hlen_row Hvals].
  apply Forall2_same_length_lookup_2; [congruence |].
  intros j x v _ Hv. exact (Forall_lookup_1 _ _ _ _ Hvals Hv).
Qed.

Lemma mat_add_rows (points noise : matrix) (c : nat) (bound : Qc -> Prop) :
  Forall (fun r => length r = c) points ->
  Forall2 (Forall2 (fun _ v => bound v)) points noise ->
  length (mat_add points noise) = length points /\
  Forall (fun r => length r = c) (mat_add points noise).
Proof.
  intros Hrows HF. unfold mat_add. revert Hrows.
  induction HF as [| r nr points noise Hr _ IH]; intros Hrows; simpl.
  - split; constructor.
  - apply Forall_cons in Hrows as [Hc Hrows]. destruct (IH Hrows) as [Hlen Hall].
    split; [now rewrite Hlen |]. constructor; [| exact Hall].
    rewrite length_zip_with, <- (Forall2_length _ _ _ Hr). lia.
Qed.

Lemma mat_shape_permutation (a b : matrix) (c : nat) :
  Permutation a b -> Forall (fun r => length r = c) a -> a <> [] ->
  mat_shape b = [length a; c].
Proof.
  intros Hperm Hrows Hne. unfold mat_shape. rewrite <- (Permutation_length Hperm).
  destruct b as [| r b].
  - apply Permutation_sym, Permutation_nil in Hperm. contradiction.
  - f_equal. f_equal. rewrite Hperm in Hrows. now apply Forall_inv in Hrows.
Qed.

(** C9 as stated fails: [tf.random.uniform] draws from the half-open range
    [-0.005, 0.005), so a coordinate can move by exactly 0.005. *)
Lemma C9_jitter_reaches_0_005 :
  uniform_contract sunny_world /\ shuffle_contract sunny_world /\
  rectangular [[qz 0]] /\
  exists out,
    outcome (augment sunny_world [[qz 0]] 7 s0) = inr (out, 7) /\
    out = [[jitter_min]] /\
    ~ jittered strictly_within_jitter [[qz 0]] out.
Proof.
  split; [| split; [| split]].
  - intros t n c lo hi Hlt. simpl. split; [apply repeat_length |].
    apply Forall_forall. intros r Hr. apply list_elem_of_In, repeat_spec in Hr. subst r.
    split; [apply repeat_length |].
    apply Forall_forall. intros v Hv. apply list_elem_of_In, repeat_spec in Hv. subst v.
    split; [apply Qcle_refl | exact Hlt].
  - intros t m. simpl. apply Permutation_rev.
  - repeat constructor.
  - exists (rev (mat_add [[qz 0]] [[jitter_min]])). split; [reflexivity |].
    assert (rev (mat_add [[qz 0]] [[jitter_min]]) = [[jitter_min]]) as Hout.
    { unfold mat_add. simpl. do 2 f_equal. now apply Qc_is_canon. }
    split; [exact Hout |]. rewrite Hout.
    intros (noise & Hfit & Hperm).
    apply Forall2_cons_inv_l in Hfit as (nrow & noise' & Hrow & Hrest & ->).
    apply Forall2_nil_inv_l in Hrest as ->.
    apply Forall2_cons_inv_l in Hrow as (v & nrow' & Hv & Hrest & ->).
    apply Forall2_nil_inv_l in Hrest as ->.
    apply Permutation_length_1_inv in Hperm.
    apply (f_equal (fun m : list (list Qc) => nth 0 (nth 0 m []) 0%Qc)) in Hperm.
    simpl in Hperm.
    assert (v = jitter_min) as ->.
    { rewrite Hperm. unfold qz. change (Q2Qc (inject_Z 0)) with 0%Qc. ring. }
    revert Hv. unfold strictly_within_jitter. vm_compute. discriminate.
Qed.

(** C9 (amended): for every two-dimensional point array and label, with
    TensorFlow's contracts for [tf.random.uniform] and [tf.random.shuffle],
    a normal run of [augment] returns the label unchanged and an array of
    the same shape whose rows are a permutation of the input rows with each
    coordinate moved by an amount in [-0.005, 0.005), hence by at most 0.005
    in absolute value. *)
Theorem C9_augment (w : World) (points : matrix) (label : nat) (s : state)
    (out : matrix) (lbl : nat)
    (Huniform : uniform_contract w) (Hshuffle : shuffle_contract w)
    (Hrect : rectangular points)
    (Hrun : outcome (augment w points label s) = inr (out, lbl)) :
  lbl = label /\
  mat_shape out = mat_shape points /\
  jittered in_jitter_range points out /\
  (forall v, in_jitter_range v -> (Qcabs v <= jitter_max)%Qc).
Proof.
  destruct (augment_success _ _ _ _ _ _ Hrun) as (t & t' & -> & ->).
  pose proof (uniform_noise_fits w points t Huniform Hrect) as Hfit.
  split; [reflexivity |]. split; [| split; [| exact in_jitter_range_abs]].
  - destruct (mat_add_rows _ _ _ _ Hrect Hfit) as [Hlen Hrows].
    destruct points as [| r points].
    + apply Forall2_nil_inv_l in Hfit. rewrite Hfit. unfold mat_add. simpl.
      pose proof (Hshuffle t' []) as Hperm. apply Permutation_nil in Hperm.
      now rewrite Hperm.
    + rewrite (mat_shape_permutation _ _ _ (Hshuffle t' _) Hrows).
      * rewrite Hlen. reflexivity.
      * intros Hnil. rewrite Hnil in Hlen. discriminate.
  - exists (uniform_result w t (mat_shape points) jitter_min jitter_max).
    split; [exact Hfit | apply Hshuffle].
Qed.

Lemma C9_augment_witness :
  7 = 7 /\
  mat_shape (rev (mat_add (unit_cloud 2) (repeat (repeat jitter_min 3) 2)))
    = mat_shape (unit_cloud 2) /\
  jittered in_jitter_range (unit_cloud 2)
           (rev (mat_add (unit_cloud 2) (repeat (repeat jitter_min 3) 2))) /\
  (forall v, in_jitter_range v -> (Qcabs v <= jitter_max)%Qc).
Proof.
  apply (C9_augment sunny_world (unit_cloud 2) 7 s0).
  - intros t n c lo hi Hlt. simpl. split; [apply repeat_length |].
    apply Forall_forall. intros r Hr. apply list_elem_of_In, repeat_spec in Hr. subst r.
    split; [apply repeat_length |].
    apply Forall_forall. intros v Hv. apply list_elem_of_In, repeat_spec in Hv. subst v.
    split; [apply Qcle_refl | exact Hlt].
  - intros t m. simpl. apply Permutation_rev.
  - repeat constructor.
  - reflexivity.
Defined.

(** ** The alignment network at initialisation *)

Lemma dot_zeros (h : list Qc) (d : nat) : dot h (repeat 0%Qc d) = 0%Qc.
Proof.
  unfold dot. revert d. induction h as [| a h IH]; intros [| d]; simpl; try reflexivity.
  rewrite IH. ring.
Qed.

Lemma column_zeros (j units d : nat) :
  column j (repeat (repeat 0%Qc units) d) = repeat 0%Qc d.
Proof.
  unfold column. induction d as [| d IH]; simpl; [reflexivity |].
  rewrite IH. f_equal.
  destruct (nth_in_or_default j (repeat 0%Qc units) 0%Qc) as [Hin | Hd]; [| exact Hd].
  now apply repeat_spec in Hin.
Qed.

Lemma map_nth_seq (b : list Qc) :
  map (fun j => nth j b 0%Qc) (seq 0 (length b)) = b.
Proof.
  apply (nth_ext _ _ 0%Qc 0%Qc); [now rewrite length_map, length_seq |].
  intros i Hi. rewrite length_map, length_seq in Hi.
  rewrite (nth_indep _ _ (nth 0 b 0%Qc)) by now rewrite length_map, length_seq.
  rewrite (map_nth (fun j => nth j b 0%Qc)), seq_nth by assumption. reflexivity.
Qed.

Lemma dense_row_zero_kernel (units d : nat) (b h : list Qc) :
  length b = units -> dense_row (repeat (repeat 0%Qc units) d) b units h = b.
Proof.
  intros Hb. unfold dense_row.
  transitivity (map (fun j => nth j b 0%Qc) (seq 0 (length b))); [| apply map_nth_seq].
  rewrite Hb. apply map_ext. intros j. rewrite column_zeros, dot_zeros. ring.
Qed.

Lemma sum_delta (g : nat -> Qc) (j n : nat) :
  Qcsum (map (fun q => (g q * eye_at q j)%Qc) (seq 0 n))
  = if Nat.ltb j n then g j else 0%Qc.
Proof.
  induction n as [| n IH]; [reflexivity |].
  rewrite seq_S, map_app, Qcsum_app, IH. simpl. unfold eye_at.
  destruct (Nat.ltb_spec j n), (Nat.ltb_spec j (S n)), (Nat.eqb_spec n j);
    try lia; subst; ring.
Qed.

Lemma rows_reassemble (b : list Qc) (N n : nat) :
  length b = N * n ->
  flat_map (fun p => map (fun j => nth (p * n + j) b 0%Qc) (seq 0 n)) (seq 0 N) = b.
Proof.
  intros Hb.
  assert (forall l : list nat,
    length (flat_map (fun p => map (fun j => nth (p * n + j) b 0%Qc) (seq 0 n)) l)
    = length l * n) as Hlen.
  { induction l as [| a l IH]; simpl; [reflexivity |].
    now rewrite length_app, length_map, length_seq, IH. }
  apply (nth_ext _ _ 0%Qc 0%Qc); [now rewrite Hlen, length_seq |].
  intros i Hi. rewrite Hlen, length_seq in Hi.
  assert (n <> 0) as Hn by (intros ->; lia).
  pose proof (Nat.div_mod_eq i n) as Hdm.
  pose proof (Nat.mod_upper_bound i n Hn) as Hmod.
  assert (i / n < N) as Hdiv by (apply Nat.Div0.div_lt_upper_bound; lia).
  replace i with ((i / n) * n + i mod n) at 1 by lia.
  rewrite (nth_flat_map_seq _ n) by
    (try assumption; intros; now rewrite length_map, length_seq).
  simpl.
  rewrite (nth_indep _ _ (nth (i / n * n + 0) b 0%Qc)) by now rewrite length_map, length_seq.
  rewrite (map_nth (fun j => nth (i / n * n + j) b 0%Qc)), seq_nth by assumption.
  simpl. f_equal. lia.
Qed.

(** Multiplying by the identity on the right leaves a sample unchanged. *)
Lemma dot21_identity (N n : nat) (b : list Qc) :
  length b = N * n -> dot21 N n n b (eye_buffer n) = b.
Proof.
  intros Hb. unfold dot21.
  transitivity (flat_map (fun p => map (fun j => nth (p * n + j) b 0%Qc) (seq 0 n))
                         (seq 0 N)); [| now apply rows_reassemble].
  apply flat_map_ext. intros p. apply map_ext_in. intros j Hj.
  apply in_seq in Hj.
  erewrite map_ext_in.
  2:{ intros q Hq. apply in_seq in Hq. rewrite nth_eye_buffer by lia. reflexivity. }
  rewrite (sum_delta (fun q => nth (p * n + q) b 0%Qc)).
  destruct (Nat.ltb_spec j n); [reflexivity | lia].
Qed.

Section ForwardFacts.
Context (framework_layer : nat -> layer -> list (list Qc) -> list Qc -> list Qc).
Context (glorot : nat -> nat -> nat -> list (list Qc)).
Context (framework_activation : string -> list Qc -> list Qc).

Abbreviation fwd := (forward framework_layer glorot framework_activation).

Lemma forward_length (nd : node) (inputs : list (list Qc)) :
  length (fwd nd inputs) = length inputs.
Proof.
  induction nd as [sh | uid l x IH | uid axes x IHx y IHy]; simpl.
  - reflexivity.
  - destruct l; now rewrite ?length_map.
  - rewrite length_zip_with, IHx, IHy. lia.
Qed.

(** The Dense layer of [tnet], with its zero kernel and identity bias,
    returns the flattened identity whatever it is fed. *)
Lemma dense_forward_identity (uid n d : nat) (reg : option OrthogonalRegularizer)
    (h : list Qc) :
  dense_forward glorot framework_activation uid (n * n) None zeros
                (Constant (np_eye_flatten n)) (Some [d]) h = eye_buffer n.
Proof.
  unfold dense_forward. simpl.
  rewrite dense_row_zero_kernel by apply length_eye_buffer.
  apply app_nil_r.
Qed.

End ForwardFacts.

Section Build.
Context (w : World).

Lemma apply_layer_success (l : layer) (x y : node) (s : state) :
  outcome (apply_layer w l x s) = inr y ->
  y = Apply1 (clock s) l x /\ exists sh, shape_of y = Some sh.
Proof.
  unfold apply_layer. destruct (shape_of x ≫= out_shape l) as [sh |] eqn:Hsh;
    [| discriminate].
  intros H. apply lib_success in H as [-> _]. split; [reflexivity |].
  exists sh. exact Hsh.
Qed.

Lemma pooling_shape (x y : node) (s : state) :
  outcome (apply_layer w GlobalMaxPooling1D x s) = inr y ->
  exists c, shape_of y = Some [c].
Proof.
  intros H. apply apply_layer_success in H as [-> [sh Hsh]]. simpl in *.
  destruct (shape_of x) as [[| a [| c [| ? ?]]] |]; simpl in Hsh; try discriminate.
  now exists c.
Qed.

Lemma dense_bn_shape (x y : node) (filters c : nat) (s : state) :
  outcome (dense_bn w x filters s) = inr y -> shape_of x = Some [c] ->
  shape_of y = Some [filters].
Proof.
  intros H Hx. unfold dense_bn in H.
  apply bind_success in H as (x1 & H1 & H). apply apply_layer_success in H1 as [-> _].
  apply bind_success in H as (x2 & H2 & H). apply apply_layer_success in H2 as [-> _].
  apply apply_layer_success in H as [-> _]. simpl. now rewrite Hx.
Qed.

Lemma tnet_success (x nd : node) (n : nat) (s : state) :
  outcome (tnet w x n s) = inr nd ->
  exists trunk u1 u2 u3,
    nd = Dot u3 (2, 1) x
           (Apply1 u2 (Reshape [n; n])
              (Apply1 u1 (Dense (n * n) None zeros (Constant (np_eye_flatten n))
                                (Some (OrthogonalRegularizer_init n default_l2reg)))
                      trunk)) /\
    shape_of trunk = Some [128].
Proof.
  intros H. unfold tnet in H.
  apply bind_success in H as (x1 & _ & H).
  apply bind_success in H as (x2 & _ & H).
  apply bind_success in H as (x3 & _ & H).
  apply bind_success in H as (x4 & H4 & H). apply pooling_shape in H4 as [c Hc].
  apply bind_success in H as (x5 & H5 & H).
  pose proof (dense_bn_shape _ _ _ _ _ H5 Hc) as Hx5.
  apply bind_success in H as (x6 & H6 & H).
  pose proof (dense_bn_shape _ _ _ _ _ H6 Hx5) as Hx6.
  apply bind_success in H as (x7 & H7 & H). apply apply_layer_success in H7 as [-> _].
  apply bind_success in H as (feat_T & HT & H). apply apply_layer_success in HT as [-> _].
  unfold layers_Dot in H.
  destruct (shape_of (Dot 0 (2, 1) x _)); [| discriminate].
  apply lib_success in H as [-> _]. eauto 10.
Qed.

End Build.

Lemma zip_with_const_r {A B C} (f : A -> B -> C) (l : list A) (l' : list B) (e : B) :
  length l = length l' ->
  zip_with f l (map (fun _ => e) l') = map (fun a => f a e) l.
Proof.
  revert l'. induction l as [| a l IH]; intros [| b l'] Hlen; simpl in *;
    try reflexivity; try discriminate.
  f_equal. apply IH. lia.
Qed.

Lemma map_const_length {A B C} (e : C) (l : list A) (l' : list B) :
  length l = length l' -> map (fun _ => e) l = map (fun _ => e) l'.
Proof.
  revert l'. induction l as [| a l IH]; intros [| b l'] Hlen; simpl in *;
    try reflexivity; try discriminate.
  f_equal. apply IH. lia.
Qed.

Lemma forward_Dot (framework_layer : nat -> layer -> list (list Qc) -> list Qc -> list Qc)
    (glorot : nat -> nat -> nat -> list (list Qc))
    (framework_activation : string -> list Qc -> list Qc)
    (uid : nat) (axes : nat * nat) (x y : node) (inputs : list (list Qc)) :
  forward framework_layer glorot framework_activation (Dot uid axes x y) inputs
  = zip_with (dot21 (dim 0 (shape_of x)) (dim 1 (shape_of x)) (dim 1 (shape_of y)))
             (forward framework_layer glorot framework_activation x inputs)
             (forward framework_layer glorot framework_activation y inputs).
Proof. reflexivity. Qed.

Lemma map_fixed {A} (f : A -> A) (l : list A) :
  Forall (fun a => f a = a) l -> map f l = l.
Proof. induction 1 as [| a l Ha _ IH]; simpl; [reflexivity | now rewrite Ha, IH]. Qed.

(** C8: at initialisation, in a built alignment network [tnet(x, n)] over an
    input of static shape (N, n): the Dense layer that predicts the
    transformation has a zero kernel and the flattened identity as bias; so
    for every input batch the predicted matrix [feat_T] is the identity for
    every sample, and the network returns its input unchanged -- whatever
    the convolution, normalisation, pooling and dense layers in front of it
    compute. *)
Theorem C8_tnet_is_identity_at_initialisation
    (framework_layer : nat -> layer -> list (list Qc) -> list Qc -> list Qc)
    (glorot : nat -> nat -> nat -> list (list Qc))
    (framework_activation : string -> list Qc -> list Qc)
    (w : World) (s : state) (x nd : node) (N n : nat) (inputs : list (list Qc))
    (Hshape : shape_of x = Some [N; n])
    (Hbuild : outcome (tnet w x n s) = inr nd)
    (Hinputs : Forall (fun b => length b = N * n)
                      (forward framework_layer glorot framework_activation x inputs)) :
  exists trunk u1 u2 u3 reg,
    let dense := Apply1 u1 (Dense (n * n) None zeros (Constant (np_eye_flatten n))
                                  (Some reg)) trunk in
    let feat_T := Apply1 u2 (Reshape [n; n]) dense in
    nd = Dot u3 (2, 1) x feat_T /\
    initial_kernel glorot u1 zeros 128 (n * n) = repeat (repeat 0%Qc (n * n)) 128 /\
    initial_bias glorot u1 (Constant (np_eye_flatten n)) (n * n) = eye_buffer n /\
    forward framework_layer glorot framework_activation feat_T inputs
      = map (fun _ => eye_buffer n) inputs /\
    forward framework_layer glorot framework_activation nd inputs
      = forward framework_layer glorot framework_activation x inputs.
Proof.
  destruct (tnet_success w x nd n s Hbuild) as (trunk & u1 & u2 & u3 & -> & Htrunk).
  exists trunk, u1, u2, u3, (OrthogonalRegularizer_init n default_l2reg).
  intros dense feat_T. subst feat_T dense.
  set (feat_T := Apply1 u2 (Reshape [n; n]) _).
  assert (forward framework_layer glorot framework_activation feat_T inputs
          = map (fun _ => eye_buffer n)
                (forward framework_layer glorot framework_activation trunk inputs)) as HT.
  { subst feat_T. cbn [forward]. rewrite Htrunk. apply map_ext. intros h.
    apply dense_forward_identity. exact None. }
  split; [reflexivity |]. split; [reflexivity |]. split; [reflexivity |]. split.
  - rewrite HT. apply map_const_length. apply forward_length.
  - assert (shape_of feat_T = Some [n; n]) as HsT.
    { subst feat_T. simpl. rewrite Htrunk. simpl.
      replace (Nat.eqb (n * n * 1) (n * (n * 1))) with true; [reflexivity |].
      symmetry. apply Nat.eqb_eq. lia. }
    rewrite forward_Dot, HsT.
    rewrite Hshape, HT. simpl.
    rewrite zip_with_const_r by now rewrite !forward_length.
    apply map_fixed. eapply Forall_impl; [exact Hinputs |].
    intros b Hb. now apply dot21_identity.
Qed.

Lemma C8_tnet_is_identity_at_initialisation_witness :
  outcome (tnet sunny_world (Input [2; 3]) 3 s0) = inr small_tnet /\
  forward halving_layer ones_kernel no_activation small_tnet sample_batch = sample_batch.
Proof.
  assert (outcome (tnet sunny_world (Input [2; 3]) 3 s0) = inr small_tnet) as Hbuild
    by (vm_compute; reflexivity).
  split; [exact Hbuild |].
  destruct (C8_tnet_is_identity_at_initialisation halving_layer ones_kernel no_activation
              sunny_world s0 (Input [2; 3]) small_tnet 2 3 sample_batch eq_refl Hbuild)
    as (trunk & u1 & u2 & u3 & reg & _ & _ & _ & _ & Hid).
  - repeat constructor.
  - exact Hid.
Defined.

(** At initialisation the regularizer of that Dense layer is called, for a
    batch of two samples, on two identity matrices. *)
Lemma regularizer_input_at_initialisation :
  match small_tnet with
  | Dot _ _ _ (Apply1 _ (Reshape _) dense) =>
    activity halving_layer ones_kernel no_activation dense sample_batch = two_identities
  | _ => False
  end.
Proof. vm_compute. reflexivity. Qed.

(** When no call raises, [tnet] builds over every input of static shape
    (N, n) with at least one point. *)
Section Builds.
Context (w : World) (Hquiet : forall t c, raises w t c = None).

Lemma lib_quiet {A} (c : call) (v : nat -> A) (s : state) :
  outcome (lib w c v s) = inr (v (clock s)).
Proof. unfold lib. now rewrite Hquiet. Qed.

Lemma apply_layer_builds (l : layer) (x : node) (sh : list nat) (s : state) :
  shape_of x ≫= out_shape l = Some sh ->
  exists y, outcome (apply_layer w l x s) = inr y /\ shape_of y = Some sh.
Proof.
  intros Hsh. unfold apply_layer. rewrite Hsh.
  exists (Apply1 (clock s) l x). split; [apply lib_quiet | exact Hsh].
Qed.

Lemma bind_builds {A B} (m : M A) (f : A -> M B) (s : state) (P : A -> Prop)
    (Q : B -> Prop) :
  (exists a, outcome (m s) = inr a /\ P a) ->
  (forall a s', P a -> exists b, outcome (f a s') = inr b /\ Q b) ->
  exists b, outcome ((m ≫= f) s) = inr b /\ Q b.
Proof.
  intros (a & Ha & HP) Hf. destruct (Hf a (final (m s)) HP) as (b & Hb & HQ).
  exists b. split; [| exact HQ]. now rewrite (bind_run_success _ _ _ _ Ha).
Qed.

Lemma conv_bn_builds (x : node) (filters N c : nat) (s : state) :
  shape_of x = Some [N; c] -> 1 <= N ->
  exists y, outcome (conv_bn w x filters s) = inr y /\ shape_of y = Some [N; filters].
Proof.
  intros Hx HN. unfold conv_bn.
  apply (bind_builds _ _ _ (fun y => shape_of y = Some [N; filters])).
  { apply apply_layer_builds. rewrite Hx. simpl.
    destruct N as [| N']; [lia |]. do 2 f_equal. lia. }
  intros x1 s1 Hx1.
  apply (bind_builds _ _ _ (fun y => shape_of y = Some [N; filters])).
  { apply apply_layer_builds. now rewrite Hx1. }
  intros x2 s2 Hx2. apply apply_layer_builds. now rewrite Hx2.
Qed.

Lemma dense_bn_builds (x : node) (filters c : nat) (s : state) :
  shape_of x = Some [c] ->
  exists y, outcome (dense_bn w x filters s) = inr y /\ shape_of y = Some [filters].
Proof.
  intros Hx. unfold dense_bn.
  apply (bind_builds _ _ _ (fun y => shape_of y = Some [filters])).
  { apply apply_layer_builds. now rewrite Hx. }
  intros x1 s1 Hx1.
  apply (bind_builds _ _ _ (fun y => shape_of y = Some [filters])).
  { apply apply_layer_builds. now rewrite Hx1. }
  intros x2 s2 Hx2. apply apply_layer_builds. now rewrite Hx2.
Qed.

Lemma tnet_builds (x : node) (N n : nat) (s : state) :
  shape_of x = Some [N; n] -> 1 <= N ->
  exists nd, outcome (tnet w x n s) = inr nd /\ shape_of nd = Some [N; n].
Proof.
  intros Hx HN. unfold tnet.
  apply (bind_builds _ _ _ (fun y => shape_of y = Some [N; 32]));
    [now apply (conv_bn_builds x 32 N n) |]. intros x1 s1 H1.
  apply (bind_builds _ _ _ (fun y => shape_of y = Some [N; 64]));
    [now apply (conv_bn_builds x1 64 N 32) |]. intros x2 s2 H2.
  apply (bind_builds _ _ _ (fun y => shape_of y = Some [N; 512]));
    [now apply (conv_bn_builds x2 512 N 64) |]. intros x3 s3 H3.
  apply (bind_builds _ _ _ (fun y => shape_of y = Some [512]));
    [apply apply_layer_builds; now rewrite H3 |]. intros x4 s4 H4.
  apply (bind_builds _ _ _ (fun y => shape_of y = Some [256]));
    [now apply (dense_bn_builds x4 256 512) |]. intros x5 s5 H5.
  apply (bind_builds _ _ _ (fun y => shape_of y = Some [128]));
    [now apply (dense_bn_builds x5 128 256) |]. intros x6 s6 H6.
  apply (bind_builds _ _ _ (fun y => shape_of y = Some [n * n]));
    [apply apply_layer_builds; now rewrite H6 |]. intros x7 s7 H7.
  apply (bind_builds _ _ _ (fun y => shape_of y = Some [n; n])).
  { apply apply_layer_builds. rewrite H7. simpl.
    replace (Nat.eqb (n * n * 1) (n * (n * 1))) with true; [reflexivity |].
    symmetry. apply Nat.eqb_eq. lia. }
  intros feat_T s8 HT. unfold layers_Dot. simpl. rewrite Hx, HT. simpl.
  rewrite Nat.eqb_refl. eexists. split; [apply lib_quiet |].
  simpl. rewrite Hx, HT. simpl. now rewrite Nat.eqb_refl.
Qed.

End Builds.

(** * Further properties of the notebook's code *)

(** ** The regularizer: rejected inputs, single matrices, scaling *)


Lemma reshape_infer_square (x : list Qc) (n : nat) :
  n <> 0 -> length x = n * n -> reshape_infer x n = Some 1.
Proof.
  intros Hn Hlen. unfold reshape_infer.
  destruct (Nat.eqb_spec n 0) as [| _]; [contradiction |].
  rewrite Hlen, Nat.Div0.mod_same. simpl. rewrite Nat.div_same by nia. reflexivity.
Qed.

Lemma Qcsum_scale (c : Qc) (l : list Qc) :
  Qcsum (map (fun v => (c * v)%Qc) l) = (c * Qcsum l)%Qc.
Proof. induction l as [| a l IH]; simpl; [ring | rewrite IH; ring]. Qed.


(** X2: on a single [n] by [n] matrix [X] the regularizer returns exactly
    [l2reg] times the sum of the squared entries of [X * X^T - I]. *)
Theorem X2_regularizer_single_matrix (l2 : Qc) (n : nat) (x : list Qc)
    (Hn : n <> 0) (Hlen : length x = n * n) :
  OrthogonalRegularizer_call (OrthogonalRegularizer_init n l2) x
  = Some (l2 * sq_deviation (mul_transpose (matrix_at n x 0)))%Qc.
Proof.
  rewrite (OrthogonalRegularizer_call_single l2 n x) by now apply reshape_infer_square.
  f_equal. unfold orthogonality_penalty. simpl. ring.
Qed.

Lemma X2_regularizer_single_matrix_witness :
  OrthogonalRegularizer_call (OrthogonalRegularizer_init 3 default_l2reg) one_identity
  = Some (default_l2reg * sq_deviation (mul_transpose (matrix_at 3 one_identity 0)))%Qc.
Proof.
  apply (X2_regularizer_single_matrix default_l2reg 3 one_identity);
    [discriminate | reflexivity].
Defined.

(** X4: the penalty is proportional to [l2reg]: replacing [l2reg] by
    [c * l2reg] multiplies the returned penalty by [c], and changes nothing
    about which inputs are rejected. *)
Theorem X4_penalty_scales_with_l2reg (c l2 : Qc) (n : nat) (x : list Qc) :
  OrthogonalRegularizer_call (OrthogonalRegularizer_init n (c * l2)) x
  = option_map (Qcmult c) (OrthogonalRegularizer_call (OrthogonalRegularizer_init n l2) x).
Proof.
  destruct (reshape_infer x n) as [k |] eqn:Hk.
  - rewrite !(OrthogonalRegularizer_call_eq _ _ k) by exact Hk. simpl. f_equal.
    unfold tf_reduce_sum, scale. rewrite !Qcsum_scale. ring.
  - unfold OrthogonalRegularizer_call. simpl. now rewrite Hk.
Qed.

(** ** Shapes through conv_bn, dense_bn, tnet and the model *)

Section Shapes.
Context (w : World).

Lemma apply_layer_normal (l : layer) (x y : node) (s : state) :
  outcome (apply_layer w l x s) = inr y ->
  y = Apply1 (clock s) l x /\
  final (apply_layer w l x s) = tick s /\
  exists sh, shape_of x ≫= out_shape l = Some sh.
Proof.
  unfold apply_layer. destruct (shape_of x ≫= out_shape l) as [sh |] eqn:Hsh;
    [| discriminate].
  intros H. apply lib_success in H as [-> Hfinal]. eauto.
Qed.

Lemma apply_layer_rejects (l : layer) (x : node) (s : state) :
  shape_of x ≫= out_shape l = None ->
  apply_layer w l x s = throw (Call_layer l) shape_error s.
Proof. intros Hsh. unfold apply_layer. now rewrite Hsh. Qed.

Lemma conv1d_two_axes (filters N c : nat) :
  1 <= N -> out_shape (Conv1D filters 1 "valid") [N; c] = Some [N; filters].
Proof.
  intros HN. simpl. destruct N as [| N']; [lia |]. simpl. do 3 f_equal. lia.
Qed.

Lemma conv1d_too_few_axes (filters : nat) (sh : list nat) :
  length sh < 2 -> out_shape (Conv1D filters 1 "valid") sh = None.
Proof. destruct sh as [| a [| b sh]]; simpl; [reflexivity | reflexivity | lia]. Qed.

Lemma conv_bn_normal (x y : node) (filters : nat) (s : state) :
  outcome (conv_bn w x filters s) = inr y ->
  exists sh u1 u2 u3,
    shape_of x ≫= out_shape (Conv1D filters 1 "valid") = Some sh /\
    u1 < u2 < u3 /\
    y = Apply1 u3 (Activation "relu")
          (Apply1 u2 (BatchNormalization 0%Qc) (Apply1 u1 (Conv1D filters 1 "valid") x)) /\
    shape_of y = Some sh.
Proof.
  intros H. unfold conv_bn in H.
  apply bind_success in H as (x1 & H1 & H).
  apply apply_layer_normal in H1 as (-> & Hs1 & sh & Hsh). rewrite Hs1 in H.
  apply bind_success in H as (x2 & H2 & H).
  apply apply_layer_normal in H2 as (-> & Hs2 & _). rewrite Hs2 in H.
  apply apply_layer_normal in H as (-> & _ & _).
  exists sh, (clock s), (S (clock s)), (S (S (clock s))).
  split; [exact Hsh |]. split; [simpl; lia |].
  split; [reflexivity |]. simpl. rewrite Hsh. reflexivity.
Qed.

Lemma dense_bn_normal (x y : node) (filters : nat) (s : state) :
  outcome (dense_bn w x filters s) = inr y ->
  exists sh u1 u2 u3,
    shape_of x = Some sh /\ sh <> [] /\
    u1 < u2 < u3 /\
    y = Apply1 u3 (Activation "relu")
          (Apply1 u2 (BatchNormalization 0%Qc)
             (Apply1 u1 (Dense filters None glorot_uniform zeros None) x)) /\
    shape_of y = Some (removelast sh ++ [filters]).
Proof.
  intros H. unfold dense_bn in H.
  apply bind_success in H as (x1 & H1 & H).
  apply apply_layer_normal in H1 as (-> & Hs1 & sh' & Hsh). rewrite Hs1 in H.
  apply bind_success in H as (x2 & H2 & H).
  apply apply_layer_normal in H2 as (-> & Hs2 & _). rewrite Hs2 in H.
  apply apply_layer_normal in H as (-> & _ & _).
  destruct (shape_of x) as [sh |] eqn:Hx; [| discriminate].
  destruct sh as [| d sh]; [discriminate |].
  exists (d :: sh), (clock s), (S (clock s)), (S (S (clock s))).
  split; [reflexivity |]. split; [discriminate |]. split; [simpl; lia |].
  split; [reflexivity |]. simpl. rewrite Hx. reflexivity.
Qed.

Lemma tnet_normal (x nd : node) (n : nat) (s : state) :
  outcome (tnet w x n s) = inr nd ->
  exists N, shape_of x = Some [N; n] /\ shape_of nd = Some [N; n].
Proof.
  intros H. destruct (tnet_success w x nd n s H) as (trunk & u1 & u2 & u3 & Hnd & Htrunk).
  assert (is_Some (shape_of nd)) as [sh Hsh].
  { unfold tnet in H. do 8 (apply bind_success in H as (? & _ & H)).
    unfold layers_Dot in H.
    match type of H with
    | outcome (match shape_of (Dot 0 ?a ?x ?y) with _ => _ end _) = _ =>
      destruct (shape_of (Dot 0 a x y)) as [sh |] eqn:Hd; [| discriminate]
    end.
    apply lib_success in H as [-> _]. now exists sh. }
  subst nd. simpl in Hsh. simpl. rewrite Htrunk in *. simpl in *.
  replace (Nat.eqb (n * n * 1) (n * (n * 1))) with true in *
    by (symmetry; apply Nat.eqb_eq; lia).
  simpl in *.
  destruct (shape_of x) as [[| N [| c [| ? ?]]] |]; simpl in *; try discriminate.
  destruct (Nat.eqb_spec c n) as [Heq | Hne]; [| discriminate].
  exists N. now rewrite Heq.
Qed.

End Shapes.

(** X5: on an input of static shape (N, c) with at least one point,
    [conv_bn] changes the channel count and nothing else: whenever it
    returns, the result is relu(batch-norm(conv(x))) built from three new
    layers, of shape (N, filters); and it does return when no library call
    raises and there is at least one channel and one filter.  On an input
    with fewer than two axes it raises [ValueError] at the convolution,
    before any layer is applied. *)
Theorem X5_conv_bn_shapes (w : World) (x : node) (filters : nat) (s : state) :
  (forall N c, shape_of x = Some [N; c] -> 1 <= N ->
     (forall y, outcome (conv_bn w x filters s) = inr y ->
        exists u1 u2 u3,
          u1 < u2 < u3 /\
          y = Apply1 u3 (Activation "relu")
                (Apply1 u2 (BatchNormalization 0%Qc)
                   (Apply1 u1 (Conv1D filters 1 "valid") x)) /\
          shape_of y = Some [N; filters]) /\
     ((forall t k, raises w t k = None) -> 1 <= c -> 1 <= filters ->
        exists y, outcome (conv_bn w x filters s) = inr y)) /\
  (forall sh, shape_of x = Some sh -> length sh < 2 ->
     conv_bn w x filters s
     = throw (Call_layer (Conv1D filters 1 "valid")) shape_error s).
Proof.
  split.
  - intros N c Hx HN. split.
    + intros y Hy. apply conv_bn_normal in Hy as (sh & u1 & u2 & u3 & Hsh & Hu & -> & Hy).
      exists u1, u2, u3. split; [exact Hu |]. split; [reflexivity |].
      rewrite Hy, <- Hsh, Hx. now apply conv1d_two_axes.
    + intros Hquiet _ _.
      destruct (conv_bn_builds w Hquiet x filters N c s Hx HN) as (y & Hy & _).
      now exists y.
  - intros sh Hx Hlen. unfold conv_bn. rewrite bind_run.
    rewrite apply_layer_rejects; [reflexivity |].
    rewrite Hx. now apply conv1d_too_few_axes.
Qed.

Lemma X5_conv_bn_shapes_witness :
  (exists y, outcome (conv_bn sunny_world (Input [2; 3]) 32 s0) = inr y /\
             shape_of y = Some [2; 32]) /\
  conv_bn sunny_world (Input [3]) 32 s0
  = throw (Call_layer (Conv1D 32 1 "valid")) shape_error s0.
Proof.
  destruct (X5_conv_bn_shapes sunny_world (Input [2; 3]) 32 s0) as [Hnormal _].
  destruct (Hnormal 2 3 eq_refl ltac:(lia)) as [Hshape Hreturns].
  destruct (X5_conv_bn_shapes sunny_world (Input [3]) 32 s0) as [_ Hrejects].
  split.
  - destruct Hreturns as [y Hy]; [reflexivity | lia | lia |].
    exists y. split; [exact Hy |].
    destruct (Hshape y Hy) as (u1 & u2 & u3 & _ & _ & Hsh). exact Hsh.
  - apply (Hrejects [3]); [reflexivity | simpl; lia].
Defined.

(** X6: [dense_bn] returns normally only on an input with at least one
    axis; it then returns relu(batch-norm(dense(x))) built from three new
    layers, and only the last axis changes, to [filters].  On an input
    without axes it raises [ValueError] at the Dense layer. *)
Theorem X6_dense_bn_shapes (w : World) (x : node) (filters : nat) (s : state) :
  (forall y, outcome (dense_bn w x filters s) = inr y ->
     exists sh u1 u2 u3,
       shape_of x = Some sh /\ sh <> [] /\ u1 < u2 < u3 /\
       y = Apply1 u3 (Activation "relu")
             (Apply1 u2 (BatchNormalization 0%Qc)
                (Apply1 u1 (Dense filters None glorot_uniform zeros None) x)) /\
       shape_of y = Some (removelast sh ++ [filters])) /\
  (shape_of x = Some [] ->
     dense_bn w x filters s
     = throw (Call_layer (Dense filters None glorot_uniform zeros None)) shape_error s).
Proof.
  split; [intros y; apply dense_bn_normal |].
  intros Hx. unfold dense_bn. rewrite bind_run.
  rewrite apply_layer_rejects; [reflexivity | now rewrite Hx].
Qed.

Section ShapeFlow.
Context (w : World).

Lemma conv_bn_shape (x y : node) (filters N c : nat) (s : state) :
  outcome (conv_bn w x filters s) = inr y -> shape_of x = Some [N; c] ->
  shape_of y = Some [N; filters].
Proof.
  intros H Hx. apply conv_bn_normal in H as (sh & u1 & u2 & u3 & Hsh & _ & _ & Hy).
  rewrite Hy, <- Hsh, Hx. simpl.
  destruct N as [| N']; [rewrite Hx in Hsh; discriminate |].
  simpl. do 3 f_equal. lia.
Qed.

Lemma tnet_shape (x nd : node) (n N c : nat) (s : state) :
  outcome (tnet w x n s) = inr nd -> shape_of x = Some [N; c] ->
  shape_of nd = Some [N; c].
Proof.
  intros H Hx. apply tnet_normal in H as (N' & Hx' & Hnd).
  rewrite Hx in Hx'. injection Hx' as -> ->. exact Hnd.
Qed.

Lemma apply_layer_shape (l : layer) (x y : node) (s : state) :
  outcome (apply_layer w l x s) = inr y -> shape_of y = shape_of x ≫= out_shape l.
Proof. intros H. apply apply_layer_normal in H as (-> & _ & _). reflexivity. Qed.

Lemma bind_fails {A B} (m : M A) (f : A -> M B) (s : state) (P : A -> Prop) (e : exc) :
  (exists a, outcome (m s) = inr a /\ P a) ->
  (forall a s', P a -> outcome (f a s') = inl e) ->
  outcome ((m ≫= f) s) = inl e.
Proof.
  intros (a & Ha & HP) Hf. rewrite (bind_run_success _ _ _ _ Ha). simpl.
  now apply Hf.
Qed.

Lemma cell_model_shape (model : node) (s : state) :
  outcome (cell_model w s) = inr model -> shape_of model = Some [NUM_CLASSES].
Proof.
  intros H. unfold cell_model in H.
  apply bind_success in H as (inputs & Hin & H). apply lib_success in Hin as [-> _].
  assert (shape_of (Input [NUM_POINTS; 3]) = Some [NUM_POINTS; 3]) as H0 by reflexivity.
  apply bind_success in H as (x1 & H1 & H). pose proof (tnet_shape _ _ _ _ _ _ H1 H0) as S1.
  apply bind_success in H as (x2 & H2 & H). pose proof (conv_bn_shape _ _ _ _ _ _ H2 S1) as S2.
  apply bind_success in H as (x3 & H3 & H). pose proof (conv_bn_shape _ _ _ _ _ _ H3 S2) as S3.
  apply bind_success in H as (x4 & H4 & H). pose proof (tnet_shape _ _ _ _ _ _ H4 S3) as S4.
  apply bind_success in H as (x5 & H5 & H). pose proof (conv_bn_shape _ _ _ _ _ _ H5 S4) as S5.
  apply bind_success in H as (x6 & H6 & H). pose proof (conv_bn_shape _ _ _ _ _ _ H6 S5) as S6.
  apply bind_success in H as (x7 & H7 & H). pose proof (conv_bn_shape _ _ _ _ _ _ H7 S6) as S7.
  apply bind_success in H as (x8 & H8 & H). apply apply_layer_shape in H8 as S8.
  rewrite S7 in S8. simpl in S8.
  apply bind_success in H as (x9 & H9 & H). pose proof (dense_bn_shape _ _ _ _ _ _ H9 S8) as S9.
  apply bind_success in H as (x10 & H10 & H). apply apply_layer_shape in H10 as S10.
  rewrite S9 in S10. simpl in S10.
  apply bind_success in H as (x11 & H11 & H).
  pose proof (dense_bn_shape _ _ _ _ _ _ H11 S10) as S11.
  apply bind_success in H as (x12 & H12 & H). apply apply_layer_shape in H12 as S12.
  rewrite S11 in S12. simpl in S12.
  apply bind_success in H as (outputs & Hout & H). apply apply_layer_shape in Hout as Sout.
  rewrite S12 in Sout. simpl in Sout.
  apply bind_success in H as (m & Hm & H). apply lib_success in Hm as [-> _].
  apply bind_success in H as ([] & _ & H). injection H as <-. exact Sout.
Qed.

End ShapeFlow.

Section QuietBuilds.
Context (w : World) (Hquiet : forall t c, raises w t c = None).

Lemma lib_builds {A} (c : call) (v : nat -> A) (s : state) (P : A -> Prop) :
  (forall t, P (v t)) -> exists a, outcome (lib w c v s) = inr a /\ P a.
Proof. intros HP. exists (v (clock s)). split; [now apply lib_quiet | apply HP]. Qed.

Lemma tnet_fails_at_Dot (x : node) (N c n : nat) (s : state) :
  shape_of x = Some [N; c] -> 1 <= N -> c <> n ->
  outcome (tnet w x n s) = inl shape_error.
Proof.
  intros Hx HN Hne. unfold tnet.
  apply (bind_fails _ _ _ (fun y => shape_of y = Some [N; 32]));
    [now apply (conv_bn_builds w Hquiet x 32 N c) |]. intros x1 s1 H1.
  apply (bind_fails _ _ _ (fun y => shape_of y = Some [N; 64]));
    [now apply (conv_bn_builds w Hquiet x1 64 N 32) |]. intros x2 s2 H2.
  apply (bind_fails _ _ _ (fun y => shape_of y = Some [N; 512]));
    [now apply (conv_bn_builds w Hquiet x2 512 N 64) |]. intros x3 s3 H3.
  apply (bind_fails _ _ _ (fun y => shape_of y = Some [512]));
    [apply (apply_layer_builds w Hquiet); now rewrite H3 |]. intros x4 s4 H4.
  apply (bind_fails _ _ _ (fun y => shape_of y = Some [256]));
    [now apply (dense_bn_builds w Hquiet x4 256 512) |]. intros x5 s5 H5.
  apply (bind_fails _ _ _ (fun y => shape_of y = Some [128]));
    [now apply (dense_bn_builds w Hquiet x5 128 256) |]. intros x6 s6 H6.
  apply (bind_fails _ _ _ (fun y => shape_of y = Some [n * n]));
    [apply (apply_layer_builds w Hquiet); now rewrite H6 |]. intros x7 s7 H7.
  apply (bind_fails _ _ _ (fun y => shape_of y = Some [n; n])).
  { apply (apply_layer_builds w Hquiet). rewrite H7. simpl.
    replace (Nat.eqb (n * n * 1) (n * (n * 1))) with true; [reflexivity |].
    symmetry. apply Nat.eqb_eq. lia. }
  intros feat_T s8 HT. unfold layers_Dot. simpl. rewrite Hx, HT. simpl.
  destruct (Nat.eqb_spec c n); [contradiction | reflexivity].
Qed.

Lemma cell_model_builds (s : state) :
  exists model, outcome (cell_model w s) = inr model /\ shape_of model = Some [NUM_CLASSES].
Proof.
  assert (1 <= NUM_POINTS) as HN by (unfold NUM_POINTS; lia).
  unfold cell_model.
  apply (bind_builds _ _ _ (fun y => shape_of y = Some [NUM_POINTS; 3]));
    [now apply lib_builds |]. intros inputs s1 H0.
  apply (bind_builds _ _ _ (fun y => shape_of y = Some [NUM_POINTS; 3]));
    [now apply (tnet_builds w Hquiet) |]. intros x1 s2 H1.
  apply (bind_builds _ _ _ (fun y => shape_of y = Some [NUM_POINTS; 32]));
    [now apply (conv_bn_builds w Hquiet x1 32 NUM_POINTS 3) |]. intros x2 s3 H2.
  apply (bind_builds _ _ _ (fun y => shape_of y = Some [NUM_POINTS; 32]));
    [now apply (conv_bn_builds w Hquiet x2 32 NUM_POINTS 32) |]. intros x3 s4 H3.
  apply (bind_builds _ _ _ (fun y => shape_of y = Some [NUM_POINTS; 32]));
    [now apply (tnet_builds w Hquiet) |]. intros x4 s5 H4.
  apply (bind_builds _ _ _ (fun y => shape_of y = Some [NUM_POINTS; 32]));
    [now apply (conv_bn_builds w Hquiet x4 32 NUM_POINTS 32) |]. intros x5 s6 H5.
  apply (bind_builds _ _ _ (fun y => shape_of y = Some [NUM_POINTS; 64]));
    [now apply (conv_bn_builds w Hquiet x5 64 NUM_POINTS 32) |]. intros x6 s7 H6.
  apply (bind_builds _ _ _ (fun y => shape_of y = Some [NUM_POINTS; 512]));
    [now apply (conv_bn_builds w Hquiet x6 512 NUM_POINTS 64) |]. intros x7 s8 H7.
  apply (bind_builds _ _ _ (fun y => shape_of y = Some [512]));
    [apply (apply_layer_builds w Hquiet); now rewrite H7 |]. intros x8 s9 H8.
  apply (bind_builds _ _ _ (fun y => shape_of y = Some [256]));
    [now apply (dense_bn_builds w Hquiet x8 256 512) |]. intros x9 s10 H9.
  apply (bind_builds _ _ _ (fun y => shape_of y = Some [256]));
    [apply (apply_layer_builds w Hquiet); now rewrite H9 |]. intros x10 s11 H10.
  apply (bind_builds _ _ _ (fun y => shape_of y = Some [128]));
    [now apply (dense_bn_builds w Hquiet x10 128 256) |]. intros x11 s12 H11.
  apply (bind_builds _ _ _ (fun y => shape_of y = Some [128]));
    [apply (apply_layer_builds w Hquiet); now rewrite H11 |]. intros x12 s13 H12.
  apply (bind_builds _ _ _ (fun y => shape_of y = Some [NUM_CLASSES]));
    [apply (apply_layer_builds w Hquiet); now rewrite H12 |]. intros outputs s14 Hout.
  apply (bind_builds _ _ _ (fun y => shape_of y = Some [NUM_CLASSES]));
    [now apply lib_builds |]. intros model s15 Hmodel.
  apply (bind_builds _ _ _ (fun _ => True)); [now apply lib_builds |].
  intros [] s16 _. exists model. split; [reflexivity | exact Hmodel].
Qed.

End QuietBuilds.

(** X7: on an input of static shape (N, num_features) with at least one
    point and one feature, [tnet(inputs, num_features)] keeps the shape:
    whenever it returns, the result has shape (N, num_features) again; and
    it does return when no library call raises. *)
Theorem X7_tnet_keeps_shape (w : World) (x : node) (N n : nat) (s : state)
    (Hshape : shape_of x = Some [N; n]) (HN : 1 <= N) (Hn : 1 <= n) :
  (forall nd, outcome (tnet w x n s) = inr nd -> shape_of nd = Some [N; n]) /\
  ((forall t k, raises w t k = None) -> exists nd, outcome (tnet w x n s) = inr nd).
Proof.
  split.
  - intros nd Hnd. apply tnet_normal in Hnd as (N' & Hx & Hnd).
    rewrite Hshape in Hx. injection Hx as <-. exact Hnd.
  - intros Hquiet. destruct (tnet_builds w Hquiet x N n s Hshape HN) as (nd & Hnd & _).
    now exists nd.
Qed.

Lemma X7_tnet_keeps_shape_witness :
  (forall nd, outcome (tnet sunny_world (Input [2; 3]) 3 s0) = inr nd ->
     shape_of nd = Some [2; 3]) /\
  ((forall t k, raises sunny_world t k = None) ->
     exists nd, outcome (tnet sunny_world (Input [2; 3]) 3 s0) = inr nd).
Proof.
  apply (X7_tnet_keeps_shape sunny_world (Input [2; 3]) 2 3 s0); [reflexivity | lia | lia].
Defined.

(** X8: [tnet(inputs, num_features)] on an input whose channel count is not
    [num_features] never returns; when no library call raises, it builds its
    convolution and dense layers first and then raises [ValueError] at the
    final [Dot]. *)
Theorem X8_tnet_rejects_other_widths (w : World) (x : node) (N c n : nat) (s : state)
    (Hshape : shape_of x = Some [N; c]) (Hne : c <> n) :
  (forall nd, outcome (tnet w x n s) <> inr nd) /\
  ((forall t k, raises w t k = None) -> 1 <= N ->
     outcome (tnet w x n s) = inl shape_error).
Proof.
  split.
  - intros nd Hnd. apply tnet_normal in Hnd as (N' & Hx & _).
    rewrite Hshape in Hx. injection Hx as _ Hc. contradiction.
  - intros Hquiet HN. now apply (tnet_fails_at_Dot w Hquiet x N c n).
Qed.

Lemma X8_tnet_rejects_other_widths_witness :
  (forall nd, outcome (tnet sunny_world (Input [2; 3]) 32 s0) <> inr nd) /\
  ((forall t k, raises sunny_world t k = None) -> 1 <= 2 ->
     outcome (tnet sunny_world (Input [2; 3]) 32 s0) = inl shape_error).
Proof.
  apply (X8_tnet_rejects_other_widths sunny_world (Input [2; 3]) 2 3 32 s0);
    [reflexivity | discriminate].
Defined.

(** X9: the model cell, whenever it returns, returns a model whose output
    has static shape (NUM_CLASSES): one score per class; and when no library
    call raises it does return: every shape check of the notebook's
    architecture passes. *)
Theorem X9_model_outputs_class_scores (w : World) (s : state) :
  (forall model, outcome (cell_model w s) = inr model ->
     shape_of model = Some [NUM_CLASSES]) /\
  ((forall t c, raises w t c = None) ->
     exists model, outcome (cell_model w s) = inr model).
Proof.
  split; [intros model; apply cell_model_shape |].
  intros Hquiet. destruct (cell_model_builds w Hquiet s) as (model & Hm & _). eauto.
Qed.

(** ** Paths: join, basename and dirname together *)

Lemma rfind_nat_None (c : ascii) (s : string) :
  rfind_nat c s = None <-> str_contains c s = false.
Proof.
  induction s as [| d r IH]; simpl; [tauto |].
  destruct (rfind_nat c r) as [i |].
  - split; [discriminate |]. intros H. apply orb_false_elim in H as [_ H].
    apply IH in H. discriminate.
  - destruct (Ascii.eqb d c); simpl; [split; discriminate |]. exact IH.
Qed.

Lemma append_nil_l (b : string) : EmptyString +:+ b = b.
Proof. reflexivity. Qed.

Lemma append_cons (d : ascii) (a b : string) : String d a +:+ b = String d (a +:+ b).
Proof. reflexivity. Qed.

Lemma rfind_nat_app (c : ascii) (a b : string) :
  rfind_nat c (a +:+ b) =
  match rfind_nat c b with
  | Some i => Some (String.length a + i)
  | None => rfind_nat c a
  end.
Proof.
  induction a as [| d a IH]; rewrite ?append_nil_l, ?append_cons; simpl.
  - now destruct (rfind_nat c b).
  - rewrite IH. destruct (rfind_nat c b); [reflexivity |].
    reflexivity.
Qed.

Lemma str_from_app (a b : string) (k : nat) :
  str_from (String.length a + k) (a +:+ b) = str_from k b.
Proof.
  induction a as [| d a IH]; rewrite ?append_nil_l, ?append_cons; simpl;
    [reflexivity | exact IH].
Qed.

Lemma str_upto_app (a b : string) (k : nat) :
  str_upto (String.length a + k) (a +:+ b) = a +:+ str_upto k b.
Proof.
  induction a as [| d a IH]; rewrite ?append_nil_l, ?append_cons; simpl;
    [reflexivity | now rewrite IH].
Qed.

Lemma str_upto_0 (s : string) : str_upto 0 s = EmptyString.
Proof. now destruct s. Qed.

Lemma append_empty_r (a : string) : a +:+ EmptyString = a.
Proof.
  induction a as [| d a IH]; rewrite ?append_nil_l, ?append_cons;
    [reflexivity | now rewrite IH].
Qed.

Lemma ends_with_rfind (c : ascii) (a : string) :
  str_ends_with c a = true -> rfind_nat c a = Some (String.length a - 1).
Proof.
  induction a as [| d r IH]; simpl; [discriminate |].
  destruct r as [| e r'].
  - intros ->. reflexivity.
  - intros H. rewrite (IH H). simpl. f_equal. lia.
Qed.

Lemma ends_with_nonempty (c : ascii) (a : string) :
  str_ends_with c a = true -> 1 <= String.length a.
Proof. destruct a; simpl; [discriminate | lia]. Qed.

Lemma starts_with_contains (c : ascii) (b : string) :
  str_contains c b = false -> str_starts_with c b = false.
Proof. destruct b as [| d r]; simpl; [reflexivity |]. now intros H%orb_false_elim. Qed.

(** The last component of [os.path.join(a, b)] is [b], for every [b]
    without a slash. *)
Lemma basename_join (a b : string) :
  str_contains slash b = false -> os_path_basename (os_path_join a b) = b.
Proof.
  intros Hb. pose proof (proj2 (rfind_nat_None slash b) Hb) as Hrb.
  unfold os_path_join. rewrite (starts_with_contains _ _ Hb).
  unfold os_path_basename, str_rfind.
  destruct (String.eqb a EmptyString || str_ends_with slash a) eqn:Hcase.
  - rewrite rfind_nat_app, Hrb.
    destruct (str_ends_with slash a) eqn:Hend.
    + rewrite (ends_with_rfind _ _ Hend). pose proof (ends_with_nonempty _ _ Hend).
      replace (Z.to_nat (Z.of_nat (String.length a - 1) + 1))
        with (String.length a + 0) by lia.
      now rewrite str_from_app.
    + rewrite orb_false_r in Hcase. apply String.eqb_eq in Hcase. subst a. simpl.
      rewrite append_nil_l. now destruct b.
  - rewrite rfind_nat_app. simpl. rewrite Hrb.
    replace (Z.to_nat (Z.of_nat (String.length a + 0) + 1))
      with (String.length a + 1) by lia.
    rewrite str_from_app. simpl. now destruct b.
Qed.

Lemma rstrip_all (c : ascii) (s : string) :
  str_all c s = true -> str_rstrip c s = EmptyString.
Proof.
  induction s as [| d r IH]; simpl; [reflexivity |].
  intros H. apply andb_prop in H as [Hd Hr]. now rewrite (IH Hr), Hd.
Qed.

Lemma rstrip_not_all (c : ascii) (s : string) :
  str_all c s = false ->
  str_rstrip c s <> EmptyString /\
  str_ends_with c (str_rstrip c s) = false /\
  str_all c (str_rstrip c s) = false.
Proof.
  induction s as [| d r IH]; simpl; [discriminate |].
  intros H. destruct (str_all c r) eqn:Hr.
  - rewrite andb_true_r in H. rewrite (rstrip_all _ _ Hr), H. simpl. rewrite H.
    repeat split; discriminate.
  - destruct (IH eq_refl) as (Hne & Hend & Hall).
    destruct (str_rstrip c r) as [| e r'] eqn:Hrs; [contradiction |].
    split; [discriminate |]. split; [exact Hend |].
    simpl in *. rewrite Hall. apply andb_false_r.
Qed.

Lemma rstrip_snoc (c : ascii) (h : string) :
  str_rstrip c (h +:+ String c EmptyString) = str_rstrip c h.
Proof.
  induction h as [| d r IH]; rewrite ?append_nil_l, ?append_cons; simpl;
    [now rewrite Ascii.eqb_refl |].
  now rewrite IH.
Qed.

Lemma rstrip_fixed (c : ascii) (h : string) :
  str_ends_with c h = false -> str_rstrip c h = h.
Proof.
  induction h as [| d r IH]; simpl; [reflexivity |].
  destruct r as [| e r'].
  - intros ->. reflexivity.
  - intros H. now rewrite (IH H).
Qed.

Lemma str_all_app (c : ascii) (a b : string) :
  str_all c (a +:+ b) = str_all c a && str_all c b.
Proof.
  induction a as [| d a IH]; rewrite ?append_nil_l, ?append_cons; simpl;
    [reflexivity |].
  now rewrite IH, andb_assoc.
Qed.

Lemma all_ends_with (c : ascii) (h : string) :
  str_all c h = true -> h <> EmptyString -> str_ends_with c h = true.
Proof.
  induction h as [| d r IH]; simpl; [contradiction |].
  intros H _. apply andb_prop in H as [Hd Hr].
  destruct r as [| e r']; [exact Hd |]. now apply IH.
Qed.

Lemma dirname_form (p : string) :
  os_path_dirname p = EmptyString \/
  str_all slash (os_path_dirname p) = true \/
  (str_ends_with slash (os_path_dirname p) = false /\
   str_all slash (os_path_dirname p) = false).
Proof.
  unfold os_path_dirname.
  set (head := str_upto _ p).
  destruct (String.eqb_spec head EmptyString) as [-> | Hne]; simpl; [now left |].
  destruct (str_all slash head) eqn:Hall; simpl; [now right; left |].
  right. right. now destruct (rstrip_not_all slash head Hall) as (_ & ? & ?).
Qed.

(** [os.path.dirname(os.path.join(os.path.dirname(p), b))] is
    [os.path.dirname(p)], for every [b] without a slash. *)
Lemma dirname_join_dirname (p b : string) :
  str_contains slash b = false ->
  os_path_dirname (os_path_join (os_path_dirname p) b) = os_path_dirname p.
Proof.
  intros Hb. pose proof (proj2 (rfind_nat_None slash b) Hb) as Hrb.
  set (h := os_path_dirname p).
  pose proof (dirname_form p) as Hform. fold h in Hform.
  unfold os_path_join. rewrite (starts_with_contains _ _ Hb).
  destruct (String.eqb_spec h EmptyString) as [Hh | Hh]; simpl.
  { rewrite Hh, append_nil_l. unfold os_path_dirname, str_rfind. rewrite Hrb. simpl.
    rewrite ?str_upto_0. now destruct b. }
  destruct Hform as [? | [Hall | [Hend Hall]]]; [contradiction | |].
  - pose proof (all_ends_with _ _ Hall Hh) as Hend. rewrite Hend.
    unfold os_path_dirname, str_rfind. rewrite rfind_nat_app, Hrb.
    rewrite (ends_with_rfind _ _ Hend). pose proof (ends_with_nonempty _ _ Hend).
    replace (Z.to_nat (Z.of_nat (String.length h - 1) + 1))
      with (String.length h + 0) by lia.
    rewrite str_upto_app, str_upto_0, append_empty_r, Hall.
    now rewrite andb_false_r.
  - rewrite Hend. unfold os_path_dirname, str_rfind.
    rewrite rfind_nat_app. simpl. rewrite Hrb.
    replace (Z.to_nat (Z.of_nat (String.length h + 0) + 1))
      with (String.length h + 1) by lia.
    rewrite str_upto_app. simpl. rewrite ?str_upto_0.
    rewrite str_all_app, Hall. simpl.
    destruct (String.eqb_spec (h +:+ String slash EmptyString) EmptyString) as [He | _].
    { destruct h; discriminate. }
    simpl. now rewrite rstrip_snoc, rstrip_fixed.
Qed.

(** X13: whenever the download cell returns, [DATA_DIR] is the entry
    [ModelNet10] next to the downloaded archive: its last component is
    [ModelNet10] and its directory is the directory of the path
    [get_file] returned, whatever that path is. *)
Theorem X13_data_dir_beside_archive (w : World) (s : state) (DATA_DIR : string)
    (Hrun : outcome (cell_fetch w s) = inr DATA_DIR) :
  os_path_basename DATA_DIR = "ModelNet10" /\
  os_path_dirname DATA_DIR = os_path_dirname (get_file_result w (clock s)).
Proof.
  unfold cell_fetch in Hrun. apply bind_success in Hrun as (archive & Hget & Hret).
  apply lib_success in Hget as [-> _]. injection Hret as <-.
  split; [now apply basename_join | now apply dirname_join_dirname].
Qed.

Lemma X13_data_dir_beside_archive_witness :
  os_path_basename "/root/.keras/datasets/ModelNet10" = "ModelNet10" /\
  os_path_dirname "/root/.keras/datasets/ModelNet10"
    = os_path_dirname (get_file_result sunny_world (clock s0)).
Proof.
  apply (X13_data_dir_beside_archive sunny_world s0 "/root/.keras/datasets/ModelNet10").
  reflexivity.
Defined.

(** ** parse_dataset: order of the labels, the class map as a lookup table,
    an empty data directory *)

Lemma for_each_fold_pos {A B} (J : list A -> B -> Prop)
    (l0 pre l : list A) (body : A -> B -> M B) (acc b : B) (s : state) :
  l0 = pre ++ l ->
  J pre acc ->
  (forall done x rest acc s b', l0 = done ++ x :: rest -> J done acc ->
     outcome (body x acc s) = inr b' -> J (done ++ [x]) b') ->
  outcome (for_each l body acc s) = inr b ->
  J l0 b.
Proof.
  revert pre acc s. induction l as [| x l IH]; intros pre acc s Hl0 HJ Hstep Hrun.
  - simpl in Hrun. injection Hrun as <-. now rewrite Hl0, app_nil_r.
  - simpl in Hrun. destruct (bind_success _ _ _ _ Hrun) as (b' & Hx & Hrest).
    apply (IH (pre ++ [x]) b' (final (body x acc s))); [| | exact Hstep | exact Hrest].
    + now rewrite <- app_assoc.
    + exact (Hstep pre x l acc s b' Hl0 HJ Hx).
Qed.

Lemma enumerate_position {A} (l : list A) (done rest : list (nat * A)) (i : nat) (x : A) :
  enumerate l = done ++ (i, x) :: rest -> i = length done.
Proof.
  intros H. assert (enumerate l !! length done = Some (i, x)) as Hlook
    by (rewrite H; now apply list_lookup_middle).
  unfold enumerate in Hlook. rewrite list_lookup_imap in Hlook.
  destruct (l !! length done); simpl in Hlook; [| discriminate].
  now injection Hlook as -> _.
Qed.

Lemma Sorted_le_snoc (l : list nat) (i : nat) :
  Sorted le l -> Forall (fun v => v <= i) l -> Sorted le (l ++ [i]).
Proof.
  induction 1 as [| a l Hl IH Hhd]; intros Hall; simpl; [repeat constructor |].
  apply Forall_cons in Hall as [Ha Hall]. constructor; [now apply IH |].
  destruct l as [| b l]; simpl; constructor; [exact Ha |].
  now apply HdRel_inv in Hhd.
Qed.

Lemma ordered_upto_snoc (i : nat) (labels : list nat) :
  ordered_upto i labels -> ordered_upto i (labels ++ [i]).
Proof.
  intros [Hs Hall]. split; [now apply Sorted_le_snoc |].
  apply Forall_app. split; [exact Hall | repeat constructor].
Qed.

Section LabelOrder.
Context (w : World).

Lemma parse_dataset_ordered (DATA_DIR : string) (num_points : nat) (s : state)
    (train_points test_points : list matrix) (train_labels test_labels : list nat)
    (class_map : nat) :
  outcome (parse_dataset w DATA_DIR num_points s)
    = inr (train_points, test_points, train_labels, test_labels, class_map) ->
  let folders := glob_result w (clock s) (os_path_join DATA_DIR "[!README]*") in
  ordered_below (length folders) train_labels /\
  ordered_below (length folders) test_labels.
Proof.
  intros Hrun folders. unfold parse_dataset in Hrun.
  apply bind_success in Hrun as (loc & _ & Hrun). simpl in Hrun.
  apply bind_success in Hrun as (fs & Hglob & Hrun).
  apply lib_success in Hglob as [Hfs _]. simpl in Hfs. fold folders in Hfs. subst fs.
  apply bind_success in Hrun as ([[[tp tl] ep] el] & Hloop & Hret).
  simpl in Hret. injection Hret as <- <- <- <- _.
  assert (length (enumerate folders) = length folders) as <-
    by (unfold enumerate; apply length_imap).
  revert Hloop.
  apply (for_each_fold_pos
           (fun done (acc : lists) =>
              ordered_below (length done) acc.1.1.2 /\ ordered_below (length done) acc.2)
           (enumerate folders) []); [reflexivity | | ].
  { repeat split; constructor. }
  clear tp tl ep el. intros done [i folder] rest acc s1 acc' Hpos Hacc Hbody.
  apply enumerate_position in Hpos. subst i.
  rewrite length_app. simpl. rewrite Nat.add_1_r.
  apply bind_success in Hbody as (_ & _ & Hbody).
  apply bind_success in Hbody as (_ & _ & Hbody).
  apply bind_success in Hbody as (train_files & _ & Hbody).
  apply bind_success in Hbody as (test_files & _ & Hbody).
  apply bind_success in Hbody as (acc1 & Hloop1 & Hloop2).
  assert (ordered_upto (length done) acc1.1.1.2 /\ ordered_upto (length done) acc1.2)
    as Hacc1.
  { revert Hloop1.
    apply (for_each_success_inv
             (fun acc : lists => ordered_upto (length done) acc.1.1.2 /\
                                 ordered_upto (length done) acc.2)).
    - destruct Hacc as [[Hs1 Hb1] [Hs2 Hb2]].
      repeat split; try assumption;
        (eapply Forall_impl; [eassumption | intros; simpl in *; lia]).
    - intros f [[[tp tl] ep] el] s2 b' _ [Htr Hte] Hstep.
      apply bind_success in Hstep as (mesh & _ & Hstep).
      apply bind_success in Hstep as (pts & _ & Hret).
      injection Hret as <-. simpl in *. split; [now apply ordered_upto_snoc | exact Hte]. }
  assert (ordered_upto (length done) acc'.1.1.2 /\ ordered_upto (length done) acc'.2)
    as [[Hs1 Hb1] [Hs2 Hb2]].
  { revert Hloop2.
    apply (for_each_success_inv
             (fun acc : lists => ordered_upto (length done) acc.1.1.2 /\
                                 ordered_upto (length done) acc.2)); [exact Hacc1 |].
    intros f [[[tp tl] ep] el] s2 b' _ [Htr Hte] Hstep.
    apply bind_success in Hstep as (mesh & _ & Hstep).
    apply bind_success in Hstep as (pts & _ & Hret).
    injection Hret as <-. simpl in *. split; [exact Htr | now apply ordered_upto_snoc]. }
  repeat split; try assumption;
    (eapply Forall_impl; [eassumption | intros; simpl in *; lia]).
Qed.

End LabelOrder.

(** X10: whenever [parse_dataset] returns, the labels come out class by
    class: [train_labels] and [test_labels] are each in nondecreasing order,
    and every label is below the number of matched folders. *)
Theorem X10_labels_ordered_by_class (w : World) (DATA_DIR : string) (num_points : nat)
    (s : state) (train_points test_points : list matrix)
    (train_labels test_labels : list nat) (class_map : nat)
    (Hrun : outcome (parse_dataset w DATA_DIR num_points s)
            = inr (train_points, test_points, train_labels, test_labels, class_map)) :
  let folders := glob_result w (clock s) (os_path_join DATA_DIR "[!README]*") in
  Sorted le train_labels /\ Sorted le test_labels /\
  Forall (fun label => label < length folders) train_labels /\
  Forall (fun label => label < length folders) test_labels.
Proof.
  intros folders.
  destruct (parse_dataset_ordered w _ _ _ _ _ _ _ _ Hrun) as [[H1 H2] [H3 H4]].
  repeat split; assumption.
Qed.

Lemma X10_labels_ordered_by_class_witness :
  Sorted le [0; 1] /\ Sorted le [0; 1] /\
  Forall (fun label => label < 2) [0; 1] /\ Forall (fun label => label < 2) [0; 1].
Proof.
  apply (X10_labels_ordered_by_class sunny_world "/root/.keras/datasets/ModelNet10" 2 s0
           [unit_cloud 2; unit_cloud 2] [unit_cloud 2; unit_cloud 2] [0; 1] [0; 1] 0).
  vm_compute. reflexivity.
Defined.

(** X11: after [parse_dataset] returned, [CLASS_MAP[i]] gives the base name
    of the [i]-th matched folder for every index below the number of
    folders, and raises [KeyError(i)] for every other index; neither changes
    a dictionary. *)
Theorem X11_class_map_lookup (w : World) (DATA_DIR : string) (num_points : nat)
    (s : state) (train_points test_points : list matrix)
    (train_labels test_labels : list nat) (CLASS_MAP : nat)
    (Hrun : outcome (parse_dataset w DATA_DIR num_points s)
            = inr (train_points, test_points, train_labels, test_labels, CLASS_MAP)) :
  let folders := glob_result w (clock s) (os_path_join DATA_DIR "[!README]*") in
  let s' := final (parse_dataset w DATA_DIR num_points s) in
  forall i,
    dict_getitem CLASS_MAP i s' =
    match folders !! i with
    | Some folder => mkResult [] (inr (os_path_basename folder)) s'
    | None => throw Call_getitem (KeyError i) s'
    end.
Proof.
  intros folders s' i.
  destruct (parse_dataset_heap w _ _ _ _ _ _ _ _ Hrun) as [_ Hheap].
  unfold dict_getitem. fold s' in Hheap. rewrite Hheap, lookup_insert_eq. simpl.
  fold folders. rewrite dict_of_enumerate.
  now destruct (folders !! i).
Qed.

Lemma X11_class_map_lookup_witness :
  outcome (dict_getitem 0 1
             (final (parse_dataset sunny_world "/root/.keras/datasets/ModelNet10" 2 s0)))
  = inr "sofa" /\
  outcome (dict_getitem 0 2
             (final (parse_dataset sunny_world "/root/.keras/datasets/ModelNet10" 2 s0)))
  = inl (KeyError 2).
Proof.
  split;
    rewrite (X11_class_map_lookup sunny_world "/root/.keras/datasets/ModelNet10" 2 s0
               [unit_cloud 2; unit_cloud 2] [unit_cloud 2; unit_cloud 2] [0; 1] [0; 1] 0
               ltac:(vm_compute; reflexivity));
    reflexivity.
Defined.

(** X14: when the folders [glob] matched are entries of [DATA_DIR], that is
    [os.path.join(DATA_DIR, name)] for names without a slash, the class map
    [parse_dataset] returns maps every index to the entry's name. *)
Theorem X14_class_names (w : World) (DATA_DIR : string) (num_points : nat)
    (s : state) (train_points test_points : list matrix)
    (train_labels test_labels : list nat) (CLASS_MAP : nat) (names : list string)
    (Hrun : outcome (parse_dataset w DATA_DIR num_points s)
            = inr (train_points, test_points, train_labels, test_labels, CLASS_MAP))
    (Hglob : glob_result w (clock s) (os_path_join DATA_DIR "[!README]*")
             = map (os_path_join DATA_DIR) names)
    (Hnames : Forall (fun name => str_contains slash name = false) names) :
  exists d,
    heap (final (parse_dataset w DATA_DIR num_points s)) !! CLASS_MAP = Some d /\
    forall i, d !! i = names !! i.
Proof.
  destruct (parse_dataset_heap w _ _ _ _ _ _ _ _ Hrun) as [_ Hheap].
  eexists. split; [rewrite Hheap; apply lookup_insert_eq |].
  intros i. rewrite dict_of_enumerate, Hglob, list_lookup_fmap.
  destruct (names !! i) as [name |] eqn:Hi; simpl; [| reflexivity].
  f_equal. apply basename_join. exact (Forall_lookup_1 _ _ _ _ Hnames Hi).
Qed.

Lemma X14_class_names_witness :
  exists d,
    heap (final (parse_dataset sunny_world "/root/.keras/datasets/ModelNet10" 2 s0)) !! 0
      = Some d /\
    forall i, d !! i = ["chair"; "sofa"] !! i.
Proof.
  apply (X14_class_names sunny_world "/root/.keras/datasets/ModelNet10" 2 s0
           [unit_cloud 2; unit_cloud 2] [unit_cloud 2; unit_cloud 2] [0; 1] [0; 1] 0
           ["chair"; "sofa"]).
  - vm_compute. reflexivity.
  - reflexivity.
  - repeat constructor.
Defined.

(** X15: a data directory in which [glob] matches nothing is no error: if
    the first [glob] returns the empty list, [parse_dataset] makes no other
    call and returns four empty arrays and a new, empty class map. *)
Theorem X15_empty_data_directory (w : World) (DATA_DIR : string) (num_points : nat)
    (s : state)
    (Hcall : raises w (clock s) (Call_glob (os_path_join DATA_DIR "[!README]*")) = None)
    (Hnone : glob_result w (clock s) (os_path_join DATA_DIR "[!README]*") = []) :
  let CLASS_MAP := fresh (dom (heap s)) in
  parse_dataset w DATA_DIR num_points s =
  mkResult [Called (Call_glob (os_path_join DATA_DIR "[!README]*"))]
           (inr ([], [], [], [], CLASS_MAP))
           (mkState (S (clock s)) (<[CLASS_MAP := ∅]> (heap s))).
Proof.
  intros CLASS_MAP. unfold parse_dataset. rewrite bind_run. simpl.
  rewrite bind_run. unfold glob_glob, lib. simpl. rewrite Hcall. simpl.
  rewrite Hnone. reflexivity.
Qed.

Lemma X15_empty_data_directory_witness :
  parse_dataset sunny_world "/nowhere" 2048 s0 =
  mkResult [Called (Call_glob "/nowhere/[!README]*")] (inr ([], [], [], [], 0))
           (mkState 1 (<[0 := ∅]> ∅)).
Proof.
  apply (X15_empty_data_directory sunny_world "/nowhere" 2048 s0); reflexivity.
Defined.

(** *** The visualisation cell *)

Lemma getitem_success {A} (l : list A) (i : nat) (s : state) (a : A) :
  outcome (getitem l i s) = inr a -> l !! i = Some a /\ final (getitem l i s) = s.
Proof.
  unfold getitem. destruct (l !! i); simpl; [| discriminate].
  intros [= ->]. now split.
Qed.

Lemma dict_getitem_success (loc key : nat) (s : state) (v : string) :
  outcome (dict_getitem loc key s) = inr v ->
  (exists d, heap s !! loc = Some d /\ d !! key = Some v) /\
  final (dict_getitem loc key s) = s.
Proof.
  unfold dict_getitem. destruct (heap s !! loc) as [d |]; simpl; [| discriminate].
  destruct (d !! key) as [v' |] eqn:Hkey; simpl; [| discriminate].
  intros [= ->]. split; [now exists d | reflexivity].
Qed.

(** A loop whose body leaves the heap alone and that ends normally ran its
    body to a normal end on every element, over the heap it started with. *)
Lemma for_each_each {A B} (P : A -> Prop) (l : list A) (body : A -> B -> M B)
    (acc b : B) (s : state) :
  (forall x acc, HeapFrame (body x acc)) ->
  (forall x acc s' b', x ∈ l -> heap s' = heap s ->
     outcome (body x acc s') = inr b' -> P x) ->
  outcome (for_each l body acc s) = inr b -> Forall P l.
Proof.
  intros Hframe Hstep Hrun.
  apply (for_each_fold (fun done st _ => heap st = heap s /\ Forall P done)
           l [] body acc b s); [now split | | exact Hrun].
  intros done x acc' s' b' Hx [Hheap Hdone] Hbody. split.
  - now rewrite Hframe.
  - apply Forall_app. split; [exact Hdone |]. constructor; [| constructor]. eauto.
Qed.

(** X12: the visualisation cell ends normally only if the first batch of
    the test dataset holds at least eight point clouds and eight labels,
    the model predicted a class for each of the eight clouds, and every one
    of these labels and predicted classes is a key of [CLASS_MAP]. *)
Theorem X12_visualize_needs_eight_samples (w : World) (CLASS_MAP : nat)
    (test_dataset : dataset) (model : node) (s : state)
    (Hrun : outcome (cell_visualize w CLASS_MAP test_dataset model s) = inr tt) :
  exists (points : list matrix) (labels : list nat) (d : gmap nat string),
    iterate_result w (S (clock s)) (take_ds 1 test_dataset) !! 0 = Some (points, labels) /\
    heap s !! CLASS_MAP = Some d /\
    forall i, i < 8 ->
      i < length points /\
      (exists label, labels !! i = Some label /\ is_Some (d !! label)) /\
      (exists pred,
         map argmax_row (predict_result w (S (S (clock s))) model (take 8 points)) !! i
           = Some pred /\
         is_Some (d !! pred)).
Proof.
  unfold cell_visualize, Dataset_take, list_dataset, model_predict, tf_math_argmax,
    plt_figure, add_subplot, ax_scatter in Hrun.
  apply bind_success in Hrun as (data & Htake & Hrun).
  apply lib_success in Htake as [-> Hs1]. rewrite Hs1 in Hrun. clear Hs1.
  apply bind_success in Hrun as (batches & Hiter & Hrun).
  apply lib_success in Hiter as [-> Hs2]. rewrite Hs2 in Hrun. clear Hs2.
  apply bind_success in Hrun as ([points labels] & Hfirst & Hrun).
  apply getitem_success in Hfirst as [Hfirst Hs3]. rewrite Hs3 in Hrun. clear Hs3.
  simpl in Hfirst. simpl fst in Hrun. simpl snd in Hrun.
  apply bind_success in Hrun as (preds & Hpred & Hrun).
  apply lib_success in Hpred as [-> Hs4]. rewrite Hs4 in Hrun. clear Hs4.
  apply bind_success in Hrun as (classes & Hargmax & Hrun).
  apply lib_success in Hargmax as [-> Hs5]. rewrite Hs5 in Hrun. clear Hs5.
  apply bind_success in Hrun as (u & Hfig & Hrun).
  apply lib_success in Hfig as [_ Hs6]. rewrite Hs6 in Hrun. clear Hs6.
  apply bind_success in Hrun as (u' & Hloop & _).
  set (s6 := tick (tick (tick (tick (tick s))))) in Hloop.
  set (preds := map argmax_row _) in Hloop.
  pose (P := fun i =>
    exists d, heap s !! CLASS_MAP = Some d /\
      i < length points /\
      (exists label, labels !! i = Some label /\ is_Some (d !! label)) /\
      (exists pred, preds !! i = Some pred /\ is_Some (d !! pred))).
  assert (Hall : Forall P (seq 0 8)).
  { apply (for_each_each P) in Hloop; [exact Hloop | intros i a; frame |].
    intros i a s' b' _ Hheap Hbody.
    apply bind_success in Hbody as (? & Hc & Hbody).
    apply lib_success in Hc as [_ Hf]. rewrite Hf in Hbody. clear Hf.
    apply bind_success in Hbody as (p & Hp & Hbody).
    apply getitem_success in Hp as [Hp Hf]. rewrite Hf in Hbody. clear Hf.
    apply bind_success in Hbody as (? & Hc & Hbody).
    apply lib_success in Hc as [_ Hf]. rewrite Hf in Hbody. clear Hf.
    apply bind_success in Hbody as (pred & Hpr & Hbody).
    apply getitem_success in Hpr as [Hpr Hf]. rewrite Hf in Hbody. clear Hf.
    apply bind_success in Hbody as (pred_name & Hpn & Hbody).
    apply dict_getitem_success in Hpn as [(d & Hd & Hpn) Hf].
    rewrite Hf in Hbody. clear Hf.
    apply bind_success in Hbody as (label & Hl & Hbody).
    apply getitem_success in Hl as [Hl Hf]. rewrite Hf in Hbody. clear Hf.
    apply bind_success in Hbody as (label_name & Hln & _).
    apply dict_getitem_success in Hln as [(d' & Hd' & Hln) _].
    simpl in Hd, Hd'. rewrite Hheap in Hd, Hd'. simpl in Hd, Hd'.
    rewrite Hd in Hd'. injection Hd' as <-.
    exists d. split; [exact Hd |]. split; [| split].
    - apply lookup_take_Some in Hp as [Hp _]. now apply lookup_lt_Some in Hp.
    - exists label. apply lookup_take_Some in Hl as [Hl _]. split; [exact Hl | eauto].
    - exists pred. split; [exact Hpr | eauto]. }
  assert (H0 : P 0) by (apply (Forall_forall P (seq 0 8)); [exact Hall | now left]).
  destruct H0 as (d & Hd & _).
  exists points, labels, d. split; [exact Hfirst |]. split; [exact Hd |].
  intros i Hi.
  assert (Hin : P i).
  { apply (Forall_forall P (seq 0 8)); [exact Hall |]. apply elem_of_seq. lia. }
  destruct Hin as (d' & Hd' & Hrest). rewrite Hd in Hd'. injection Hd' as <-.
  exact Hrest.
Qed.

Lemma X12_visualize_needs_eight_samples_witness :
  exists (points : list matrix) (labels : list nat) (d : gmap nat string),
    iterate_result sunny_world 10 (take_ds 1 (from_tensor_slices [] [])) !! 0
      = Some (points, labels) /\
    heap (final (parse_dataset sunny_world "/root/.keras/datasets/ModelNet10" 2 s0)) !! 0
      = Some d /\
    forall i, i < 8 ->
      i < length points /\
      (exists label, labels !! i = Some label /\ is_Some (d !! label)) /\
      (exists pred,
         map argmax_row (predict_result sunny_world 11 (Input [NUM_POINTS; 3])
                           (take 8 points)) !! i = Some pred /\
         is_Some (d !! pred)).
Proof.
  apply (X12_visualize_needs_eight_samples sunny_world 0 (from_tensor_slices [] [])
           (Input [NUM_POINTS; 3])
           (final (parse_dataset sunny_world "/root/.keras/datasets/ModelNet10" 2 s0))).
  vm_compute. reflexivity.
Defined.

(** *** parse_dataset: how many labels of each class *)

Lemma repeat_snoc {A} (a : A) (n : nat) : repeat a (S n) = repeat a n ++ [a].
Proof. induction n as [| n IH]; simpl; [reflexivity |]. now rewrite <- IH. Qed.

Section LabelCount.
Context (w : World).

(** One pass over the files of a class appends its index once per file to
    the one list, and leaves the other alone. *)
Lemma train_files_labels (files : list string) (num_points i : nat) (acc acc' : lists)
    (s : state) :
  outcome (for_each files
             (fun f '(train_points, train_labels, test_points, test_labels) =>
                mesh ← trimesh_load w f;
                pts ← mesh_sample w mesh num_points;
                mret (train_points ++ [pts], train_labels ++ [i], test_points, test_labels))
             acc s) = inr acc' ->
  acc'.1.1.2 = acc.1.1.2 ++ repeat i (length files) /\ acc'.2 = acc.2.
Proof.
  apply (for_each_fold_pos
           (fun done (b : lists) =>
              b.1.1.2 = acc.1.1.2 ++ repeat i (length done) /\ b.2 = acc.2)
           files []); [reflexivity | simpl; now rewrite app_nil_r |].
  intros done f rest [[[tp tl] ep] el] s1 b' _ [Htl Hel] Hstep.
  apply bind_success in Hstep as (mesh & _ & Hstep).
  apply bind_success in Hstep as (pts & _ & Hret).
  injection Hret as <-. simpl in *.
  rewrite length_app, Nat.add_1_r, repeat_snoc, app_assoc, Htl. now split.
Qed.

Lemma test_files_labels (files : list string) (num_points i : nat) (acc acc' : lists)
    (s : state) :
  outcome (for_each files
             (fun f '(train_points, train_labels, test_points, test_labels) =>
                mesh ← trimesh_load w f;
                pts ← mesh_sample w mesh num_points;
                mret (train_points, train_labels, test_points ++ [pts], test_labels ++ [i]))
             acc s) = inr acc' ->
  acc'.1.1.2 = acc.1.1.2 /\ acc'.2 = acc.2 ++ repeat i (length files).
Proof.
  apply (for_each_fold_pos
           (fun done (b : lists) =>
              b.1.1.2 = acc.1.1.2 /\ b.2 = acc.2 ++ repeat i (length done))
           files []); [reflexivity | simpl; now rewrite app_nil_r |].
  intros done f rest [[[tp tl] ep] el] s1 b' _ [Htl Hel] Hstep.
  apply bind_success in Hstep as (mesh & _ & Hstep).
  apply bind_success in Hstep as (pts & _ & Hret).
  injection Hret as <-. simpl in *.
  rewrite length_app, Nat.add_1_r, repeat_snoc, app_assoc, Hel. now split.
Qed.

Lemma parse_dataset_label_counts (DATA_DIR : string) (num_points : nat) (s : state)
    (train_points test_points : list matrix) (train_labels test_labels : list nat)
    (class_map : nat) :
  stable_glob w ->
  outcome (parse_dataset w DATA_DIR num_points s)
    = inr (train_points, test_points, train_labels, test_labels, class_map) ->
  let folders := glob_result w (clock s) (os_path_join DATA_DIR "[!README]*") in
  train_labels = labels_of w (clock s) "train/*" (enumerate folders) /\
  test_labels = labels_of w (clock s) "test/*" (enumerate folders).
Proof.
  intros Hstable Hrun folders. unfold parse_dataset in Hrun.
  apply bind_success in Hrun as (loc & _ & Hrun). simpl in Hrun.
  apply bind_success in Hrun as (fs & Hglob & Hrun).
  apply lib_success in Hglob as [Hfs _]. simpl in Hfs. fold folders in Hfs. subst fs.
  apply bind_success in Hrun as ([[[tp tl] ep] el] & Hloop & Hret).
  simpl in Hret. injection Hret as <- <- <- <- _.
  revert Hloop.
  apply (for_each_fold_pos
           (fun done (acc : lists) =>
              acc.1.1.2 = labels_of w (clock s) "train/*" done /\
              acc.2 = labels_of w (clock s) "test/*" done)
           (enumerate folders) []); [reflexivity | now split |].
  clear tp tl ep el. intros done [i folder] rest acc s1 acc' _ [Htl Hel] Hbody.
  apply bind_success in Hbody as (? & _ & Hbody).
  apply bind_success in Hbody as (? & _ & Hbody).
  apply bind_success in Hbody as (train_files & Htrain & Hbody).
  apply lib_success in Htrain as [-> _].
  apply bind_success in Hbody as (test_files & Htest & Hbody).
  apply lib_success in Htest as [-> _].
  apply bind_success in Hbody as (acc1 & Hloop1 & Hloop2).
  apply train_files_labels in Hloop1 as [Htl1 Hel1].
  apply test_files_labels in Hloop2 as [Htl2 Hel2].
  unfold labels_of. rewrite !flat_map_app. simpl. rewrite !app_nil_r.
  fold (labels_of w (clock s) "train/*" done). fold (labels_of w (clock s) "test/*" done).
  rewrite Htl2, Htl1, Htl, Hel2, Hel1, Hel.
  split; do 3 f_equal; apply Hstable.
Qed.

End LabelCount.

(** X16: over a directory tree that does not change during the run,
    [parse_dataset] returns exactly one label per matched file: the labels
    are, folder by folder in [enumerate] order, the folder's index repeated
    once for every file [glob] matches in its [train/] (for [train_labels])
    or [test/] (for [test_labels]) directory. *)
Theorem X16_one_label_per_file (w : World) (DATA_DIR : string) (num_points : nat)
    (s : state) (train_points test_points : list matrix)
    (train_labels test_labels : list nat) (class_map : nat)
    (Hstable : stable_glob w)
    (Hrun : outcome (parse_dataset w DATA_DIR num_points s)
            = inr (train_points, test_points, train_labels, test_labels, class_map)) :
  let folders := glob_result w (clock s) (os_path_join DATA_DIR "[!README]*") in
  train_labels = labels_of w (clock s) "train/*" (enumerate folders) /\
  test_labels = labels_of w (clock s) "test/*" (enumerate folders) /\
  length train_points = length (labels_of w (clock s) "train/*" (enumerate folders)) /\
  length test_points = length (labels_of w (clock s) "test/*" (enumerate folders)).
Proof.
  intros folders.
  destruct (parse_dataset_label_counts w _ _ _ _ _ _ _ _ Hstable Hrun) as [Htr Hte].
  destruct (parse_dataset_labelled w _ _ _ _ _ _ _ _ Hrun) as [Hp Hq]. simpl in Hp, Hq.
  fold folders in Htr, Hte. rewrite <- Htr, <- Hte.
  repeat split; try reflexivity; eapply Forall2_length; eassumption.
Qed.

Lemma X16_one_label_per_file_witness :
  [0; 1] = labels_of sunny_world 0 "train/*"
             (enumerate ["/root/.keras/datasets/ModelNet10/chair";
                         "/root/.keras/datasets/ModelNet10/sofa"]) /\
  [0; 1] = labels_of sunny_world 0 "test/*"
             (enumerate ["/root/.keras/datasets/ModelNet10/chair";
                         "/root/.keras/datasets/ModelNet10/sofa"]) /\
  length [unit_cloud 2; unit_cloud 2]
    = length (labels_of sunny_world 0 "train/*"
                (enumerate ["/root/.keras/datasets/ModelNet10/chair";
                            "/root/.keras/datasets/ModelNet10/sofa"])) /\
  length [unit_cloud 2; unit_cloud 2]
    = length (labels_of sunny_world 0 "test/*"
                (enumerate ["/root/.keras/datasets/ModelNet10/chair";
                            "/root/.keras/datasets/ModelNet10/sofa"])).
Proof.
  apply (X16_one_label_per_file sunny_world "/root/.keras/datasets/ModelNet10" 2 s0
           [unit_cloud 2; unit_cloud 2] [unit_cloud 2; unit_cloud 2] [0; 1] [0; 1] 0).
  - intros t t' pattern. reflexivity.
  - vm_compute. reflexivity.
Defined.
